(** * Corpus preprocessing for encoder-decoder pretraining

    A shallow embedding of [src/tools/preprocess_data_enc_dec_lm.py]:
    the chunking routine [Encoder.encode], the reduction loop of [main]
    that feeds the two dataset builders, and the indexed dataset builder
    the loop writes to.

    Python integers are [Z]; a Python list of token ids is [list Z];
    slices follow Python's clamping rules, negative bounds included.
    A failed [assert] is a value of the error type [exn]. *)

From Stdlib Require Import ZArith List Lia Bool String Ascii QArith.
From Stdlib Require Import Permutation.
Import ListNotations.
Local Open Scope Z_scope.

(** ** Python sequences *)

Module Py.
Section Seq.
Context {A : Type}.

(** [len(l)] *)
Definition len (l : list A) : Z := Z.of_nat (List.length l).

(** A slice bound as Python resolves it against a sequence of [n] items
    (step 1): a negative bound counts from the end, and the result is
    clamped to [0 .. n]. *)
Definition bound (n : Z) (b : Z) : Z :=
  if b <? 0 then Z.max 0 (n + b) else Z.min b n.

(** [l[start:stop]]; [None] is an omitted bound. *)
Definition slice (l : list A) (start stop : option Z) : list A :=
  let n := len l in
  let a := match start with None => 0 | Some s => bound n s end in
  let b := match stop with None => n | Some s => bound n s end in
  firstn (Z.to_nat (b - a)) (skipn (Z.to_nat a) l).
End Seq.
End Py.

Abbreviation len := Py.len.

(** [l[:b]], [l[a:]] and [l[a:b]] *)
Definition upto {A} (l : list A) (b : Z) : list A := Py.slice l None (Some b).
Definition from {A} (l : list A) (a : Z) : list A := Py.slice l (Some a) None.
Definition range {A} (l : list A) (a b : Z) : list A :=
  Py.slice l (Some a) (Some b).

(** ** Python strings

    A [str] is a [string]; its characters are 8-bit code points. *)

(** [str.isspace] on one character: tab to carriage return, the four
    separators [0x1c .. 0x1f], space, NEL and the no-break space. *)
Definition isspace (c : ascii) : bool :=
  let n := nat_of_ascii c in
  ((9 <=? n) && (n <=? 13) || (28 <=? n) && (n <=? 32)
   || (n =? 133) || (n =? 160))%nat.

Fixpoint lstrip (s : string) : string :=
  match s with
  | String c s' => if isspace c then lstrip s' else s
  | EmptyString => EmptyString
  end.

Fixpoint rstrip (s : string) : string :=
  match s with
  | String c s' =>
    match rstrip s' with
    | EmptyString => if isspace c then EmptyString else String c EmptyString
    | t => String c t
    end
  | EmptyString => EmptyString
  end.

(** [s.strip()] *)
Definition strip (s : string) : string := rstrip (lstrip s).

(** [s.replace("<n>", "\n")]: occurrences are replaced left to right
    and do not overlap. *)
Fixpoint replace_n (s : string) : string :=
  match s with
  | String "<" (String "n" (String ">" s')) => String "010" (replace_n s')
  | String c s' => String c (replace_n s')
  | EmptyString => EmptyString
  end.

(** ** The chunker *)

(** [AssertionError] carries the tuple the source attaches to its two
    assertions: [(len(context), len(label), tmp)]. *)
Inductive exn : Type :=
| AssertionError (info : Z * Z * Z).

(** Lines 93-102: the bucketing of the raw draw
    [(int)(random.random() * 100)].  The last branch is the source's
    [else: assert 1>0], which leaves [tmp] as drawn. *)
Definition draw_tmp (tmp : Z) : Z :=
  if tmp mod 8 <=? 3 then 32
  else if tmp mod 8 <=? 5 then 64
  else if tmp mod 8 =? 6 then 128
  else if tmp mod 8 =? 7 then 256
  else tmp.

(** Lines 110-143: the table applied when the tentative label is shorter
    than 63.  [keep] is the pair computed before the table is consulted;
    it survives when no branch fires. *)
Definition override (piece : list Z) (keep : list Z * list Z)
  : list Z * list Z :=
  let length := len piece in
  if length <? 16 then (upto piece (-7), from piece (-7))
  else if length <? 24 then (upto piece 7, from piece 7)
  else if length <? 32 then (upto piece (-15), from piece (-15))
  else if length <? 48 then (upto piece 15, from piece 15)
  else if length <? 64 then (upto piece (-31), from piece (-31))
  else if length <? 96 then (upto piece 31, from piece 31)
  else if length <? 128 then (upto piece (-63), from piece (-63))
  else if length <? 192 then (upto piece 63, from piece 63)
  else if length <? 256 then (upto piece (-127), from piece (-127))
  else if length <? 384 then (upto piece 127, from piece 127)
  else if length <? 512 then (upto piece (-255), from piece (-255))
  else keep.

(** Lines 106-143: [context] and [label] as they stand at the assertions. *)
Definition split (tmp : Z) (piece : list Z) : list Z * list Z :=
  let context := upto piece (tmp - 1) in
  let label := from piece (tmp - 1) in
  if len label <? 63 then override piece (context, label)
  else (context, label).

(** The variables of the [while] loop, with the number of calls made to
    [random.random()] so far. *)
Record loop_state : Type := LoopState {
  i : Z;
  contexts : list (list Z);
  labels : list (list Z);
  draws : nat
}.

(** How one pass through the loop body ends: at its last statement, at
    the [break], or at a failed assertion. *)
Inductive control : Type :=
| Continue (st : loop_state)
| Break (st : loop_state)
| Raise (e : exn).

(** [in_range n] is the source's [n > 4 and n < 256]. *)
Definition in_range (n : Z) : bool := (4 <? n) && (n <? 256).

Section Encoder.
(** The tokenizer is an external collaborator. *)
Variable tokenizer_encode : string -> list Z.
Variable eod_id : Z.
(** [random k] is the value of [(int)(random.random() * 100)] at the
    [k]-th call made while one line is encoded. *)
Variable random : nat -> Z.

(** Lines 92-154: one pass through the body of the [while] loop. *)
Definition loop_body (doc_ids : list Z) (st : loop_state) : control :=
  let tmp := draw_tmp (random (draws st)) in
  let piece := range doc_ids (i st) (i st + tmp - 1 + 255) in
  if len piece <? 12 then
    Break (LoopState (i st) (contexts st) (labels st) (S (draws st)))
  else
    let '(context, label) := split tmp piece in
    if negb (in_range (len context)) then
      Raise (AssertionError (len context, len label, tmp))
    else if negb (in_range (len label)) then
      Raise (AssertionError (len context, len label, tmp))
    else
      Continue (LoopState (i st + (tmp - 1))
                          (contexts st ++ [context])
                          (labels st ++ [label])
                          (S (draws st))).

(** Lines 91-154.  [fuel] bounds the number of times the loop body is
    entered; [None] means the bound was hit before the loop ended. *)
Fixpoint while_loop (fuel : nat) (doc_ids : list Z) (st : loop_state)
  : option (exn + loop_state) :=
  if i st <? len doc_ids then
    match fuel with
    | O => None
    | S fuel' =>
      match loop_body doc_ids st with
      | Continue st' => while_loop fuel' doc_ids st'
      | Break st' => Some (inr st')
      | Raise e => Some (inl e)
      end
    end
  else Some (inr st).

(** The loop variables before the first test (lines 87-90). *)
Definition init : loop_state := LoopState 0 [] [] 0.

(** What [encode] returns: [(None, None, 0)] or
    [(contexts, labels, len(line))]. *)
Definition encoded : Type :=
  (option (list (list Z)) * option (list (list Z)) * Z)%type.

(** Lines 75-155, [Encoder.encode]. *)
Definition encode (fuel : nat) (line : string) : option (exn + encoded) :=
  if Z.of_nat (String.length line) >? 5000000 then Some (inr (None, None, 0))
  else
    let data := strip line in
    let data := replace_n data in
    let doc_ids := tokenizer_encode data in
    if len doc_ids <? 12 then Some (inr (None, None, 0))
    else
      let doc_ids := doc_ids ++ [eod_id] in
      match while_loop fuel doc_ids init with
      | None => None
      | Some (inl e) => Some (inl e)
      | Some (inr st) =>
        Some (inr (Some (contexts st), Some (labels st),
                   Z.of_nat (String.length line)))
      end.

(** The offset [i] at which the [k]-th entry into the loop body finds
    the loop, as the draws determine it. *)
Fixpoint offset (k : nat) : Z :=
  match k with
  | O => 0
  | S k' => offset k' + (draw_tmp (random k') - 1)
  end.

(** The window the [k]-th entry into the loop body takes. *)
Definition window (doc_ids : list Z) (k : nat) : list Z :=
  range doc_ids (offset k) (offset k + draw_tmp (random k) - 1 + 255).

(** What holds of the pairs appended so far: the [k]-th pair splits the
    [k]-th window, passes both assertions, and its window has at least
    12 items. *)
Definition pairs_ok (doc_ids : list Z) (cs ls : list (list Z)) : Prop :=
  List.length cs = List.length ls /\
  forall k, (k < List.length cs)%nat ->
    nth k cs [] ++ nth k ls [] = window doc_ids k /\
    in_range (len (nth k cs [])) = true /\
    in_range (len (nth k ls [])) = true /\
    12 <= len (window doc_ids k).

(** The loop invariant at the test [i < len(doc_ids)]. *)
Definition loop_inv (doc_ids : list Z) (st : loop_state) : Prop :=
  i st = offset (draws st) /\
  List.length (contexts st) = draws st /\
  pairs_ok doc_ids (contexts st) (labels st).

(** What holds when the loop is left: either through its test, or
    through the [break] on a window shorter than 12. *)
Definition loop_post (doc_ids : list Z) (st : loop_state) : Prop :=
  pairs_ok doc_ids (contexts st) (labels st) /\
  i st = offset (List.length (contexts st)) /\
  ((draws st = List.length (contexts st) /\ len doc_ids <= i st) \/
   (draws st = S (List.length (contexts st)) /\
    i st < len doc_ids < i st + 12)).

(** The token ids of a line, before the sentinel is appended. *)
Definition tokens (line : string) : list Z :=
  tokenizer_encode (replace_n (strip line)).

(** The two rejection rules of lines 77 and 83. *)
Definition rejected (line : string) : Prop :=
  Z.of_nat (String.length line) > 5000000 \/ len (tokens line) < 12.
End Encoder.

(** The chance that a uniform draw from [0 .. 99] is bucketed to [v]:
    the draws that give [v], counted, over 100. *)
Definition draws_giving (v : Z) : list Z :=
  filter (fun r => draw_tmp r =? v) (map Z.of_nat (seq 0 100)).

Definition probability (v : Z) : Q :=
  Z.of_nat (List.length (draws_giving v)) # 100.

(** The override table as the specification words it: the upper bounds
    of the buckets of [len(piece)], the bucket a length falls in, and the
    fixed size cut in that bucket (7, 7, 15, 15, 31, 31, ...). *)
Definition bucket_bounds : list Z :=
  [16; 24; 32; 48; 64; 96; 128; 192; 256; 384; 512].

Fixpoint find_bucket (bounds : list Z) (n : Z) (index : nat) : option nat :=
  match bounds with
  | [] => None
  | b :: bounds' =>
    if n <? b then Some index else find_bucket bounds' n (S index)
  end.

Definition bucket (n : Z) : option nat := find_bucket bucket_bounds n 0.

Definition fixed_size (index : nat) : Z := 2 ^ (Z.of_nat (index / 2) + 3) - 1.

(** The split the specification's table gives: a fixed-size suffix in the
    buckets of even index, a fixed-size prefix in those of odd index, the
    tentative split past the last bound. *)
Definition table_split (tmp : Z) (piece : list Z) : list Z * list Z :=
  match bucket (len piece) with
  | Some index =>
    let f := fixed_size index in
    if Nat.even index then (upto piece (- f), from piece (- f))
    else (upto piece f, from piece f)
  | None => (upto piece (tmp - 1), from piece (tmp - 1))
  end.

(** ** The reduction loop of [main] *)

Inductive tensor : Type :=
| IntTensor (data : list Z).

Inductive builder_name : Type :=
| builder_context
| builder_target.

(** One [add_item] call, on the builder it is made on. *)
Definition call : Type := (builder_name * tensor)%type.

(** What the loop of lines 221-228 updates: the byte count and the two
    builders, the latter through the [add_item] calls made so far. *)
Record main_state : Type := MainState {
  total_bytes_processed : Z;
  add_item_calls : list call
}.

(** Lines 226-228. *)
Definition write_pairs (pair_ids label_ids : list (list Z))
  (calls : list call) : list call :=
  fold_left
    (fun calls '(pids, lids) =>
       calls ++ [(builder_context, IntTensor pids);
                 (builder_target, IntTensor lids)])
    (combine pair_ids label_ids) calls.

(** Lines 222-228: the body of the [for] loop on one result.  The
    progress report of lines 230-236 writes to [stderr] only. *)
Definition main_body (st : main_state) (doc : encoded) : main_state :=
  let '(pair_ids, label_ids, bytes_processed) := doc in
  match pair_ids, label_ids with
  | Some pair_ids, Some label_ids =>
    MainState (total_bytes_processed st + bytes_processed)
              (write_pairs pair_ids label_ids (add_item_calls st))
  | _, _ => st
  end.

(** Lines 221-228 over the results in the order the pool yields them. *)
Definition main_loop (encoded_docs : list encoded) (st : main_state)
  : main_state :=
  fold_left main_body encoded_docs st.

(** The two calls of lines 227-228 for one chunk pair. *)
Definition pair_calls (pair : list Z * list Z) : list call :=
  [(builder_context, IntTensor (fst pair));
   (builder_target, IntTensor (snd pair))].

(** The chunk pairs of one result, as [zip] of line 226 yields them. *)
Definition pairs_of (doc : encoded) : list (list Z * list Z) :=
  match doc with
  | (Some pair_ids, Some label_ids, _) => combine pair_ids label_ids
  | _ => []
  end.

(** The tensors one builder received, in order. *)
Fixpoint received (b : builder_name) (calls : list call) : list (list Z) :=
  match calls with
  | [] => []
  | (builder_context, IntTensor x) :: calls' =>
    match b with
    | builder_context => x :: received b calls'
    | builder_target => received b calls'
    end
  | (builder_target, IntTensor x) :: calls' =>
    match b with
    | builder_context => received b calls'
    | builder_target => x :: received b calls'
    end
  end.

(** ** The indexed dataset builder *)

Module Builder.

(** [n] bytes of [v], least significant first. *)
Fixpoint le_bytes (n : nat) (v : Z) : list Z :=
  match n with
  | O => []
  | S n' => v mod 256 :: le_bytes n' (v / 256)
  end.

(** Modelled from the spec: the module [data.indexed_dataset] is missing
    from the sources.  A builder holds the width of its dtype, the bytes
    of the bin file, the size and pointer sequences of the index, the
    document boundaries, and whether it was finalized. *)
Record t : Type := Make {
  itemWidth : nat;
  bin : list Z;
  sizes : list Z;
  pointers : list Z;
  doc_idx : list Z;
  spent : bool
}.

(** Modelled from the spec: [open(binPath, dtype)] of the missing
    builder starts an empty bin file and an empty index. *)
Definition open (width : nat) : t := Make width [] [] [] [] false.

(** Modelled from the spec: [add_item] of the missing builder appends
    the elements to the bin file, records the item count, and records
    the byte offset at which the record starts; a spent builder accepts
    no item. *)
Definition add_item (b : t) (item : list Z) : option t :=
  if spent b then None
  else Some (Make (itemWidth b)
                  (bin b ++ flat_map (le_bytes (itemWidth b)) item)
                  (sizes b ++ [len item])
                  (pointers b ++ [len (bin b)])
                  (doc_idx b)
                  false).

(** Modelled from the spec: [end_document] of the missing builder
    records the current record count as a document boundary. *)
Definition end_document (b : t) : option t :=
  if spent b then None
  else Some (Make (itemWidth b) (bin b) (sizes b) (pointers b)
                  (doc_idx b ++ [len (sizes b)]) false).

(** Modelled from the spec: the index file the missing [finalize]
    writes, without the magic and version the specification leaves
    open. *)
Record index_file : Type := IndexFile {
  dtype_width : nat;
  record_count : Z;
  document_count : Z;
  size_array : list Z;
  pointer_array : list Z;
  doc_array : list Z
}.

(** Modelled from the spec: [finalize(idxPath)] of the missing builder
    writes the index and leaves the builder spent. *)
Definition finalize (b : t) : option (t * index_file) :=
  if spent b then None
  else Some (Make (itemWidth b) (bin b) (sizes b) (pointers b) (doc_idx b)
                  true,
             IndexFile (itemWidth b) (len (sizes b)) (len (doc_idx b))
                       (sizes b) (pointers b) (doc_idx b)).

(** The calls a builder takes before it is finalized. *)
Inductive op : Type :=
| AddItem (item : list Z)
| EndDocument.

Definition step (b : t) (o : op) : option t :=
  match o with
  | AddItem item => add_item b item
  | EndDocument => end_document b
  end.

Fixpoint run (b : t) (ops : list op) : option t :=
  match ops with
  | [] => Some b
  | o :: ops' =>
    match step b o with
    | Some b' => run b' ops'
    | None => None
    end
  end.

(** [sum(l)] *)
Definition sum (l : list Z) : Z := fold_right Z.add 0 l.

(** What every builder that is not spent satisfies: the bin file holds
    the elements counted by the sizes, and each pointer is the byte
    offset of its record. *)
Record wf (b : t) : Prop := Wf {
  wf_open : spent b = false;
  wf_bin : len (bin b) = Z.of_nat (itemWidth b) * sum (sizes b);
  wf_count : List.length (pointers b) = List.length (sizes b);
  wf_pointers : forall k, (k < List.length (sizes b))%nat ->
    nth k (pointers b) 0
    = Z.of_nat (itemWidth b) * sum (firstn k (sizes b))
}.

End Builder.

(** A tokenizer to run the chunker on: one token per character. *)
Definition toy_tokenizer (s : string) : list Z :=
  map (fun c => Z.of_nat (nat_of_ascii c)) (list_ascii_of_string s).

(** A sequence of draws in [0 .. 99] to run it with. *)
Definition toy_random (k : nat) : Z := (Z.of_nat k * 37 + 5) mod 100.

(** Lines of 39 and of 11 characters, between blanks. *)
Definition toy_line : string := "  the quick brown fox jumps over the lazy ".
Definition short_line : string := " hello world ".

(** A line long enough for several passes of the loop. *)
Definition long_line : string :=
  " hello world, this is a test of the emergency broadcast system. this is only a test   ".

(** The lists of a result, without the character count. *)
Definition lists_of (r : option (exn + encoded))
  : option (exn + (option (list (list Z)) * option (list (list Z)))) :=
  match r with
  | Some (inr (pair_ids, label_ids, _)) => Some (inr (pair_ids, label_ids))
  | Some (inl e) => Some (inl e)
  | None => None
  end.

(** What line 224 adds to [total_bytes_processed] for one result. *)
Definition counted_bytes (doc : encoded) : Z :=
  match doc with
  | (Some _, Some _, bytes_processed) => bytes_processed
  | _ => 0
  end.

(** The character count of a line that passes both rejection checks of
    [encode], and 0 for a line that fails one. *)
Definition accepted_bytes (tokenizer_encode : string -> list Z)
  (line : string) : Z :=
  if (Z.of_nat (String.length line) >? 5000000)
     || (len (tokens tokenizer_encode line) <? 12)
  then 0 else Z.of_nat (String.length line).

(** [sum(l)] over integers. *)
Definition zsum (l : list Z) : Z := fold_right Z.add 0 l.

(** ** The length histogram (lines 45-65) *)

(** The global [hash]: a dict from pairs of flags to counters, in
    insertion order.  A counter is a float that only ever holds a whole
    number; [n] stands for the float [n.0]. *)
Definition dict : Type := list ((Z * Z) * Z).

Inductive key_error : Type :=
| KeyError (key : Z * Z).

Definition key_eqb (a b : Z * Z) : bool :=
  (fst a =? fst b) && (snd a =? snd b).

(** [d[key]], [None] where Python raises [KeyError]. *)
Fixpoint dict_get (d : dict) (key : Z * Z) : option Z :=
  match d with
  | [] => None
  | (k, v) :: d' => if key_eqb k key then Some v else dict_get d' key
  end.

(** [d[key] = v] *)
Fixpoint dict_set (d : dict) (key : Z * Z) (v : Z) : dict :=
  match d with
  | [] => [(key, v)]
  | (k, v') :: d' =>
    if key_eqb k key then (k, v) :: d' else (k, v') :: dict_set d' key v
  end.

(** Lines 45-48: the 36 counters, all [0.0]. *)
Definition hash_init : dict :=
  fold_left
    (fun hash i =>
       fold_left (fun hash j => dict_set hash (i, j) 0) [0; 1; 2; 3; 4; 5] hash)
    [0; 1; 2; 3; 4; 5] [].

(** [v + 1.0] on a float that holds the whole number [v]: exact below
    [2^53], and at [2^53] the sum rounds back to [2^53]. *)
Definition add_one (v : Z) : Z := if v <? 2 ^ 53 then v + 1 else v.

(** Lines 53-58 and 59-64: the index of the first bound that [length]
    is below, and [flag] if there is none. *)
Fixpoint first_below (a : list Z) (length : Z) (index : Z) (flag : Z) : Z :=
  match a with
  | [] => flag
  | i :: a' =>
    if length <? i then index else first_below a' length (index + 1) flag
  end.

(** Lines 50-65, [check]. *)
Definition check (x y : list Z) (hash : dict) : key_error + dict :=
  let a := [4; 16; 32; 64; 128; 256] in
  let flag_1 := first_below a (len x) 0 (-1) in
  let flag_2 := first_below a (len y) 0 (-1) in
  match dict_get hash (flag_1, flag_2) with
  | Some v => inr (dict_set hash (flag_1, flag_2) (add_one v))
  | None => inl (KeyError (flag_1, flag_2))
  end.

(** [check] on each pair in turn, stopping at the first error. *)
Fixpoint check_all (pairs : list (list Z * list Z)) (hash : dict)
  : key_error + dict :=
  match pairs with
  | [] => inr hash
  | (x, y) :: pairs' =>
    match check x y hash with
    | inr hash' => check_all pairs' hash'
    | inl e => inl e
    end
  end.

(** What a run of [check] over pairs keeps true of the dict. *)
Record hash_ok (hash : dict) (count : Z) : Prop := HashOk {
  ok_keys : map fst hash = map fst hash_init;
  ok_nonneg : Forall (fun e => 0 <= snd e) hash;
  ok_sum : zsum (map snd hash) = count;
  ok_zero : forall i j, i = 0 \/ j = 0 -> 0 <= i <= 5 -> 0 <= j <= 5 ->
                        dict_get hash (i, j) = Some 0
}.

(** ** The output files of [main] (lines 202-209) *)

(** [s.startswith("/")] *)
Definition starts_with_sep (s : string) : bool :=
  match s with
  | String "/" _ => true
  | _ => false
  end.

(** [s.endswith("/")] *)
Fixpoint ends_with_sep (s : string) : bool :=
  match s with
  | EmptyString => false
  | String c EmptyString => Ascii.eqb c "/"
  | String _ s' => ends_with_sep s'
  end.

(** [os.path.join(a, b)] with the POSIX separator: an absolute [b]
    replaces [a]; else [b] is appended, after a separator unless [a] is
    empty or ends with one. *)
Definition path_join (a b : string) : string :=
  if starts_with_sep b then b
  else if match a with EmptyString => true | _ => false end
          || ends_with_sep a
       then a ++ b
       else a ++ "/" ++ b.

(** Line 202. *)
Definition level : string := "document".

(** The four paths of lines 206-209; ["{}_{}_context.bin".format(p, l)]
    is [p], ["_"], [l] and ["_context.bin"] in a row. *)
Record output_files : Type := OutputFiles {
  context_bin_file : string;
  context_idx_file : string;
  target_bin_file : string;
  target_idx_file : string
}.

Definition output_files_of (output_path output_prefix : string)
  : output_files :=
  OutputFiles
    (path_join output_path (output_prefix ++ "_" ++ level ++ "_context.bin"))
    (path_join output_path (output_prefix ++ "_" ++ level ++ "_context.idx"))
    (path_join output_path (output_prefix ++ "_" ++ level ++ "_target.bin"))
    (path_join output_path (output_prefix ++ "_" ++ level ++ "_target.idx")).

(** * Properties *)

(** ** Slices *)

Section SliceFacts.
Context {A : Type}.
Implicit Types l : list A.

Lemma len_nonneg l : 0 <= len l.
Proof. unfold Py.len. lia. Qed.

Lemma len_app l1 l2 : len (l1 ++ l2) = len l1 + len l2.
Proof. unfold Py.len. rewrite length_app. lia. Qed.

Lemma bound_range n b : 0 <= n -> 0 <= Py.bound n b <= n.
Proof. unfold Py.bound. destruct (Z.ltb_spec b 0); lia. Qed.

Lemma bound_neg n b : b < 0 -> Py.bound n b = Z.max 0 (n + b).
Proof. unfold Py.bound. destruct (Z.ltb_spec b 0); lia. Qed.

Lemma bound_nonneg n b : 0 <= b -> Py.bound n b = Z.min b n.
Proof. unfold Py.bound. destruct (Z.ltb_spec b 0); lia. Qed.

Lemma len_slice l start stop :
  len (Py.slice l start stop) =
  Z.max 0 (match stop with None => len l | Some s => Py.bound (len l) s end
           - match start with None => 0 | Some s => Py.bound (len l) s end).
Proof.
  unfold Py.slice.
  pose proof (len_nonneg l) as Hn.
  assert (Ha : 0 <= match start with
                    | None => 0 | Some s => Py.bound (len l) s end <= len l)
    by (destruct start; [apply bound_range|]; lia).
  assert (Hb : 0 <= match stop with
                    | None => len l | Some s => Py.bound (len l) s end <= len l)
    by (destruct stop; [apply bound_range|]; lia).
  unfold Py.len at 1. rewrite length_firstn, length_skipn.
  unfold Py.len in *. lia.
Qed.

Lemma len_upto l b : len (upto l b) = Py.bound (len l) b.
Proof.
  unfold upto. rewrite len_slice.
  pose proof (bound_range _ b (len_nonneg l)). lia.
Qed.

Lemma len_from l a : len (from l a) = len l - Py.bound (len l) a.
Proof.
  unfold from. rewrite len_slice.
  pose proof (bound_range _ a (len_nonneg l)). lia.
Qed.

Lemma len_range l a b :
  len (range l a b) = Z.max 0 (Py.bound (len l) b - Py.bound (len l) a).
Proof. unfold range. apply len_slice. Qed.

(** [l[:b] + l[b:] == l], whatever the sign of [b]. *)
Lemma upto_from l b : upto l b ++ from l b = l.
Proof.
  unfold upto, from, Py.slice.
  pose proof (bound_range _ b (len_nonneg l)) as Hb.
  rewrite Z.sub_0_r. change (Z.to_nat 0) with 0%nat. rewrite skipn_O.
  rewrite (firstn_all2 (n := Z.to_nat (len l - Py.bound (len l) b))).
  - apply firstn_skipn.
  - rewrite length_skipn. unfold Py.len in *. lia.
Qed.

(** A window that starts inside the list. *)
Lemma len_range_inside l a b :
  0 <= a -> a <= b -> len (range l a b) = Z.max 0 (Z.min b (len l) - a).
Proof.
  intros Ha Hab. rewrite len_range. unfold Py.bound.
  pose proof (len_nonneg l).
  destruct (Z.ltb_spec b 0), (Z.ltb_spec a 0); lia.
Qed.
End SliceFacts.

(** ** The draw and the split *)

Lemma draw_tmp_cases r :
  draw_tmp r = 32 \/ draw_tmp r = 64 \/ draw_tmp r = 128 \/ draw_tmp r = 256.
Proof.
  unfold draw_tmp. pose proof (Z.mod_pos_bound r 8 eq_refl) as Hm.
  destruct (Z.leb_spec (r mod 8) 3); [tauto|].
  destruct (Z.leb_spec (r mod 8) 5); [tauto|].
  destruct (Z.eqb_spec (r mod 8) 6); [tauto|].
  destruct (Z.eqb_spec (r mod 8) 7); [tauto|lia].
Qed.

Lemma draw_tmp_ge r : 32 <= draw_tmp r.
Proof. destruct (draw_tmp_cases r) as [H|[H|[H|H]]]; rewrite H; lia. Qed.

Lemma draw_tmp_le r : draw_tmp r <= 256.
Proof. destruct (draw_tmp_cases r) as [H|[H|[H|H]]]; rewrite H; lia. Qed.

Ltac split_cases :=
  repeat match goal with
         | |- context [if ?a <? ?b then _ else _] =>
           destruct (Z.ltb_spec a b)
         end.

(** Every branch of the table cuts [piece] at one point. *)
Lemma override_concat piece keep :
  fst keep ++ snd keep = piece ->
  fst (override piece keep) ++ snd (override piece keep) = piece.
Proof.
  intros Hk. unfold override. split_cases; cbn [fst snd];
    solve [apply upto_from | exact Hk].
Qed.

Lemma split_concat tmp piece :
  fst (split tmp piece) ++ snd (split tmp piece) = piece.
Proof.
  unfold split. split_cases.
  - apply override_concat. apply upto_from.
  - apply upto_from.
Qed.

(** The lengths at the two assertions, for a piece the loop can take. *)
Lemma split_in_range tmp piece :
  tmp = 32 \/ tmp = 64 \/ tmp = 128 \/ tmp = 256 ->
  12 <= len piece <= tmp + 254 ->
  in_range (len (fst (split tmp piece))) = true /\
  in_range (len (snd (split tmp piece))) = true.
Proof.
  intros Ht Hp. unfold in_range.
  rewrite !andb_true_iff, !Z.ltb_lt.
  unfold split. rewrite len_from, bound_nonneg by lia.
  unfold override.
  split_cases; cbn [fst snd]; rewrite len_upto, len_from;
    rewrite ?bound_neg, ?bound_nonneg by lia; lia.
Qed.

(** ** The segmentation loop *)

Section LoopFacts.
Variable random : nat -> Z.
Variable doc_ids : list Z.

Local Abbreviation off := (offset random).
Local Abbreviation win := (window random doc_ids).
Local Abbreviation tmp_of k := (draw_tmp (random k)).
Local Abbreviation ok := (pairs_ok random doc_ids).
Local Abbreviation inv := (loop_inv random doc_ids).
Local Abbreviation post := (loop_post random doc_ids).

Lemma offset_succ k : off (S k) = off k + (tmp_of k - 1).
Proof. reflexivity. Qed.

Lemma offset_lower k : 31 * Z.of_nat k <= off k.
Proof.
  induction k as [|k IH]; [cbn; lia|].
  rewrite offset_succ. pose proof (draw_tmp_ge (random k)). lia.
Qed.

Lemma offset_nonneg k : 0 <= off k.
Proof. pose proof (offset_lower k). lia. Qed.

(** The segments [off k, off (k+1)) tile [0, off n). *)
Lemma offset_tiles n j :
  0 <= j < off n ->
  exists k, (k < n)%nat /\ off k <= j < off (S k).
Proof.
  induction n as [|n IH]; intros Hj; [cbn in Hj; lia|].
  destruct (Z.lt_ge_cases j (off n)) as [Hlt|Hge].
  - destruct IH as (k & Hk & Hin); [lia|]. exists k. split; [lia|exact Hin].
  - exists n. split; [lia|]. lia.
Qed.

Lemma len_window k :
  len (win k) = Z.max 0 (Z.min (off k + tmp_of k + 254) (len doc_ids)
                        - off k).
Proof.
  unfold window.
  pose proof (offset_nonneg k). pose proof (draw_tmp_ge (random k)).
  rewrite len_range_inside by lia. lia.
Qed.

Lemma pairs_ok_nil : ok [] [].
Proof. split; [reflexivity|]. cbn. intros k Hk. lia. Qed.

Lemma pairs_ok_snoc cs ls c l :
  ok cs ls ->
  c ++ l = win (List.length cs) ->
  in_range (len c) = true -> in_range (len l) = true ->
  12 <= len (win (List.length cs)) ->
  ok (cs ++ [c]) (ls ++ [l]).
Proof.
  intros [Hlen Hall] Hcat Hc Hl Hw. split.
  - rewrite !length_app. cbn. lia.
  - intros k Hk. rewrite length_app in Hk. cbn in Hk.
    destruct (Nat.eq_dec k (List.length cs)) as [->|Hne].
    + assert (Hnl : nth (List.length cs) (ls ++ [l]) [] = l)
        by (rewrite Hlen; apply nth_middle).
      rewrite Hnl, nth_middle. auto.
    + rewrite !app_nth1 by lia. apply Hall. lia.
Qed.

Lemma while_loop_runs fuel :
  forall st, inv st ->
  len doc_ids - i st <= Z.of_nat fuel ->
  exists st', while_loop random fuel doc_ids st = Some (inr st') /\
              post st'.
Proof.
  induction fuel as [|fuel IH]; intros st (Hi & Hd & Hp) Hfuel;
    cbn [while_loop]; unfold loop_body; destruct (Z.ltb_spec (i st) (len doc_ids)) as [Hlt|Hge];
    try lia;
    try (exists st; split; [reflexivity|];
         split; [exact Hp|]; rewrite Hd; split; [exact Hi|]; left; lia).
  pose proof (draw_tmp_ge (random (draws st))) as Hge.
  pose proof (draw_tmp_cases (random (draws st))) as Hcases.
  pose proof (len_window (draws st)) as Hw.
  unfold window in Hw. rewrite <- Hi in Hw.
  pose proof (offset_nonneg (draws st)) as H0. rewrite <- Hi in H0.
  destruct (Z.ltb_spec
              (len (range doc_ids (i st)
                          (i st + tmp_of (draws st) - 1 + 255))) 12)
    as [Hshort|Hlong].
  - eexists. split; [reflexivity|].
    split; [exact Hp|]. cbn. rewrite Hd. split; [exact Hi|]. right. lia.
  - set (piece := range doc_ids (i st) (i st + tmp_of (draws st) - 1 + 255))
      in *.
    pose proof (split_concat (tmp_of (draws st)) piece) as Hcat.
    destruct (split_in_range (tmp_of (draws st)) piece Hcases) as [Hc Hl];
      [lia|].
    destruct (split (tmp_of (draws st)) piece) as [context label].
    cbn [fst snd] in *. rewrite Hc, Hl. cbn [negb].
    apply IH.
    + unfold loop_inv. cbn. split; [rewrite Hi; reflexivity|].
      split; [rewrite length_app; cbn; lia|].
      apply pairs_ok_snoc; rewrite ?Hd; auto;
        unfold window; rewrite <- Hi; auto.
    + cbn. lia.
Qed.

Lemma while_loop_mono fuel :
  forall st r fuel', while_loop random fuel doc_ids st = Some r ->
  (fuel <= fuel')%nat ->
  while_loop random fuel' doc_ids st = Some r.
Proof.
  induction fuel as [|fuel IH]; intros st r fuel' Hrun Hle;
    destruct fuel' as [|fuel']; try lia;
    cbn [while_loop] in *;
    destruct (i st <? len doc_ids); try discriminate; auto.
  destruct (loop_body random doc_ids st); auto.
  apply IH; [exact Hrun|lia].
Qed.

Lemma loop_inv_init : inv init.
Proof. split; [reflexivity|]. split; [reflexivity|]. apply pairs_ok_nil. Qed.

(** From the first test on, [len(doc_ids)] entries into the body are
    enough, and more change nothing. *)
Lemma while_loop_total :
  exists st, post st /\
    forall fuel, (List.length doc_ids <= fuel)%nat ->
      while_loop random fuel doc_ids init = Some (inr st).
Proof.
  destruct (while_loop_runs (List.length doc_ids) init loop_inv_init)
    as (st & Hrun & Hpost); [cbn; unfold Py.len; lia|].
  exists st. split; [exact Hpost|].
  intros fuel Hle. eapply while_loop_mono; eauto.
Qed.

(** No amount of fuel makes an assertion fail. *)
Lemma while_loop_no_error fuel e :
  while_loop random fuel doc_ids init <> Some (inl e).
Proof.
  intros Hrun. destruct while_loop_total as (st & _ & Htot).
  pose proof (while_loop_mono _ _ _ (Nat.max fuel (List.length doc_ids)) Hrun
                (Nat.le_max_l _ _)) as H1.
  rewrite (Htot _ (Nat.le_max_r _ _)) in H1. discriminate.
Qed.

Lemma while_loop_result fuel st :
  while_loop random fuel doc_ids init = Some (inr st) -> post st.
Proof.
  intros Hrun. destruct while_loop_total as (st' & Hpost & Htot).
  pose proof (while_loop_mono _ _ _ (Nat.max fuel (List.length doc_ids)) Hrun
                (Nat.le_max_l _ _)) as H1.
  rewrite (Htot _ (Nat.le_max_r _ _)) in H1. congruence.
Qed.

(** One pass that reaches the last statement moves [i] by [tmp - 1]. *)
Lemma loop_body_continue st st' :
  loop_body random doc_ids st = Continue st' ->
  i st' = i st + (tmp_of (draws st) - 1) /\
  draws st' = S (draws st) /\
  31 <= tmp_of (draws st) - 1.
Proof.
  unfold loop_body. intros Hb.
  pose proof (draw_tmp_ge (random (draws st))).
  destruct (len _ <? 12); [discriminate|].
  destruct (split _ _) as [context label].
  destruct (negb _); [discriminate|]. destruct (negb _); [discriminate|].
  injection Hb as <-. cbn. lia.
Qed.

Lemma pairs_ok_offset cs ls k :
  ok cs ls -> (k < List.length cs)%nat -> 0 <= off k < len doc_ids.
Proof.
  intros [_ Hall] Hk. destruct (Hall k Hk) as (_ & _ & _ & Hw).
  rewrite len_window in Hw. pose proof (offset_nonneg k). lia.
Qed.

(** The body is entered at most [len(doc_ids)] times. *)
Lemma loop_post_draws st : post st -> (draws st <= List.length doc_ids)%nat.
Proof.
  intros (Hok & Hi & Hexit).
  assert (Hlast : forall n, List.length (contexts st) = S n ->
                            31 * Z.of_nat n < len doc_ids).
  { intros n Hn. pose proof (pairs_ok_offset _ _ n Hok) as Ho.
    pose proof (offset_lower n). lia. }
  pose proof (offset_lower (List.length (contexts st))) as Hlow.
  unfold Py.len in *.
  destruct Hexit as [[Hd Hout]|[Hd Hin]]; rewrite Hd.
  - destruct (List.length (contexts st)) as [|n] eqn:Hn; [lia|].
    specialize (Hlast n eq_refl). lia.
  - lia.
Qed.

(** An accepted document gets a first pair. *)
Lemma loop_post_nonempty st :
  post st -> 12 <= len doc_ids -> (0 < List.length (contexts st))%nat.
Proof.
  intros (_ & Hi & Hexit) Hlen.
  destruct (List.length (contexts st)); [cbn in Hi; lia|lia].
Qed.
End LoopFacts.

(** ** The chunker on a line *)

Section EncodeFacts.
Variable tokenizer_encode : string -> list Z.
Variable eod_id : Z.
Variable random : nat -> Z.

Local Abbreviation toks := (tokens tokenizer_encode).
Local Abbreviation enc := (encode tokenizer_encode eod_id random).
Local Abbreviation rej := (rejected tokenizer_encode).
Local Abbreviation doc line := (toks line ++ [eod_id]).

Lemma encode_rejected fuel line :
  rej line -> enc fuel line = Some (inr (None, None, 0)).
Proof.
  unfold rejected, encode, tokens. intros [Hlong|Hshort].
  - destruct (Z.gtb_spec (Z.of_nat (String.length line)) 5000000); [auto|lia].
  - destruct (Z.of_nat (String.length line) >? 5000000); [auto|].
    destruct (Z.ltb_spec (len (tokenizer_encode (replace_n (strip line)))) 12);
      [auto|lia].
Qed.

Lemma encode_accepted fuel line :
  ~ rej line ->
  enc fuel line =
  match while_loop random fuel (doc line) init with
  | None => None
  | Some (inl e) => Some (inl e)
  | Some (inr st) =>
    Some (inr (Some (contexts st), Some (labels st),
               Z.of_nat (String.length line)))
  end.
Proof.
  unfold rejected, encode, tokens. intros Hacc.
  destruct (Z.gtb_spec (Z.of_nat (String.length line)) 5000000); [lia|].
  destruct (Z.ltb_spec (len (tokenizer_encode (replace_n (strip line)))) 12);
    [lia|reflexivity].
Qed.

Lemma rejected_dec line : rej line \/ ~ rej line.
Proof. unfold rejected. lia. Qed.

Lemma len_doc line : len (doc line) = len (toks line) + 1.
Proof. rewrite len_app. reflexivity. Qed.

(** With more fuel than the line has tokens, an accepted line is
    encoded, and the loop leaves through one of its two exits. *)
Lemma encode_total line :
  ~ rej line ->
  exists st, loop_post random (doc line) st /\
    forall fuel, (List.length (toks line) < fuel)%nat ->
      enc fuel line = Some (inr (Some (contexts st), Some (labels st),
                                 Z.of_nat (String.length line))).
Proof.
  intros Hacc.
  destruct (while_loop_total random (doc line)) as (st & Hpost & Htot).
  exists st. split; [exact Hpost|]. intros fuel Hfuel.
  rewrite encode_accepted, Htot; [reflexivity| |exact Hacc].
  rewrite length_app. cbn. lia.
Qed.

(** Whatever the fuel, a result with lists comes from an accepted line
    and from a state in which the loop was left. *)
Lemma encode_inv fuel line cs ls n :
  enc fuel line = Some (inr (Some cs, Some ls, n)) ->
  ~ rej line /\
  exists st, loop_post random (doc line) st /\
             cs = contexts st /\ ls = labels st /\
             n = Z.of_nat (String.length line).
Proof.
  intros Henc. destruct (rejected_dec line) as [Hr|Hacc].
  - rewrite encode_rejected in Henc by exact Hr. discriminate.
  - split; [exact Hacc|]. rewrite encode_accepted in Henc by exact Hacc.
    destruct (while_loop _ _ _ _) as [[e|st]|] eqn:Hrun; try discriminate.
    exists st. split; [eapply while_loop_result; eauto|].
    injection Henc as <- <- <-. auto.
Qed.

Lemma encode_no_error fuel line e : enc fuel line <> Some (inl e).
Proof.
  destruct (rejected_dec line) as [Hr|Hacc].
  - rewrite encode_rejected by exact Hr. discriminate.
  - rewrite encode_accepted by exact Hacc.
    destruct (while_loop _ _ _ _) as [[e'|st]|] eqn:Hrun; try discriminate.
    exfalso. eapply while_loop_no_error; eauto.
Qed.
End EncodeFacts.

(** ** Claims on the chunker *)

Lemma in_range_spec n : in_range n = true <-> 4 < n < 256.
Proof. unfold in_range. rewrite andb_true_iff, !Z.ltb_lt. tauto. Qed.

Lemma In_combine_nth (cs ls : list (list Z)) c l :
  List.length cs = List.length ls ->
  In (c, l) (combine cs ls) ->
  exists k, (k < List.length cs)%nat /\ nth k cs [] = c /\ nth k ls [] = l.
Proof.
  intros Hlen Hin.
  destruct (In_nth _ _ ([], []) Hin) as (k & Hk & Hnth).
  rewrite length_combine in Hk. rewrite combine_nth in Hnth by exact Hlen.
  exists k. split; [lia|]. split; congruence.
Qed.

Lemma nth_In_combine (cs ls : list (list Z)) k :
  List.length cs = List.length ls -> (k < List.length cs)%nat ->
  In (nth k cs [], nth k ls []) (combine cs ls).
Proof.
  intros Hlen Hk. rewrite <- combine_nth by exact Hlen.
  apply nth_In. rewrite length_combine. lia.
Qed.

(** C1: for every line, every tokenizer, every sequence of draws and
    every amount of fuel, [encode] never ends in a failed assertion, and
    the contexts and labels it returns are as many and every (context,
    label) pair of them has both lengths strictly between 4 and 256;
    with more fuel than the line has tokens a result
    is returned. *)
Theorem encode_pairs_in_range tokenizer_encode eod_id random line :
  (forall fuel e,
     encode tokenizer_encode eod_id random fuel line <> Some (inl e)) /\
  (forall fuel cs ls n,
     encode tokenizer_encode eod_id random fuel line
       = Some (inr (Some cs, Some ls, n)) ->
     List.length cs = List.length ls /\
     forall c l, In (c, l) (combine cs ls) ->
       4 < len c < 256 /\ 4 < len l < 256) /\
  (exists r, forall fuel,
     (List.length (tokens tokenizer_encode line) < fuel)%nat ->
     encode tokenizer_encode eod_id random fuel line = Some (inr r)).
Proof.
  split; [intros fuel e; apply encode_no_error|]. split.
  - intros fuel cs ls n Henc.
    apply encode_inv in Henc.
    destruct Henc as (_ & st & ((Hlen & Hall) & _) & -> & -> & _).
    split; [exact Hlen|]. intros c l Hin.
    destruct (In_combine_nth _ _ _ _ Hlen Hin) as (k & Hk & <- & <-).
    destruct (Hall k Hk) as (_ & Hc & Hl & _).
    rewrite <- !in_range_spec. auto.
  - destruct (rejected_dec tokenizer_encode line) as [Hr|Hacc].
    + eexists. intros fuel _. apply encode_rejected. exact Hr.
    + destruct (encode_total tokenizer_encode eod_id random line Hacc) as (st & _ & Htot).
      eexists. exact Htot.
Qed.

Lemma encode_pairs_in_range_witness :
  exists cs ls n c l,
    encode toy_tokenizer 1 toy_random 40 toy_line
      = Some (inr (Some cs, Some ls, n)) /\
    In (c, l) (combine cs ls) /\
    4 < len c < 256 /\ 4 < len l < 256.
Proof.
  do 5 eexists. split; [vm_compute; reflexivity|].
  split; [left; reflexivity|].
  eapply (proj1 (proj2 (encode_pairs_in_range toy_tokenizer 1 toy_random
                          toy_line)) 40%nat);
    [vm_compute; reflexivity|left; reflexivity].
Defined.

(** C3: [encode] returns the sentinel [(None, None, 0)], a value and not
    an error, exactly when the line has more than 5,000,000 characters
    or its tokens, before the sentinel id is appended, are fewer than
    12; a line that is not rejected gets, with enough fuel, a result
    with lists; a line of exactly 11 tokens gets the sentinel. *)
Theorem encode_sentinel tokenizer_encode eod_id random fuel line :
  (encode tokenizer_encode eod_id random fuel line
     = Some (inr (None, None, 0))
   <-> rejected tokenizer_encode line) /\
  (~ rejected tokenizer_encode line ->
   (List.length (tokens tokenizer_encode line) < fuel)%nat ->
   exists cs ls,
     encode tokenizer_encode eod_id random fuel line
       = Some (inr (Some cs, Some ls, Z.of_nat (String.length line)))) /\
  (len (tokens tokenizer_encode line) = 11 ->
   encode tokenizer_encode eod_id random fuel line
     = Some (inr (None, None, 0))).
Proof.
  split; [split|split].
  - intros Henc.
    destruct (rejected_dec tokenizer_encode line) as [Hr|Hacc]; [exact Hr|].
    rewrite encode_accepted in Henc by exact Hacc.
    destruct (while_loop _ _ _ _) as [[e|st]|]; discriminate.
  - apply encode_rejected.
  - intros Hacc Hfuel.
    destruct (encode_total tokenizer_encode eod_id random line Hacc)
      as (st & _ & Htot).
    exists (contexts st), (labels st). apply Htot. exact Hfuel.
  - intros H11. apply encode_rejected. right. lia.
Qed.

Lemma encode_sentinel_witness :
  len (tokens toy_tokenizer short_line) = 11 /\
  encode toy_tokenizer 1 toy_random 0 short_line = Some (inr (None, None, 0)).
Proof.
  split; [reflexivity|].
  apply (proj2 (proj2 (encode_sentinel toy_tokenizer 1 toy_random 0
                         short_line))).
  reflexivity.
Defined.

(** C9: a line that passes both rejection checks has at least 13 ids
    once the sentinel id is appended; the first window has at least 12
    items and is split into the first pair; with more fuel than the line
    has tokens [encode] returns lists that are not empty. *)
Theorem encode_accepted_nonempty tokenizer_encode eod_id random fuel line :
  ~ rejected tokenizer_encode line ->
  (List.length (tokens tokenizer_encode line) < fuel)%nat ->
  let doc_ids := tokens tokenizer_encode line ++ [eod_id] in
  13 <= len doc_ids /\
  12 <= len (window random doc_ids 0) /\
  exists c cs l ls,
    encode tokenizer_encode eod_id random fuel line
      = Some (inr (Some (c :: cs), Some (l :: ls),
                   Z.of_nat (String.length line))) /\
    c ++ l = window random doc_ids 0.
Proof.
  intros Hacc Hfuel doc_ids.
  assert (Hlen : 13 <= len doc_ids).
  { unfold doc_ids. rewrite len_doc. unfold rejected in Hacc. lia. }
  destruct (encode_total tokenizer_encode eod_id random line Hacc)
    as (st & Hpost & Htot).
  fold doc_ids in Hpost.
  pose proof (loop_post_nonempty random doc_ids st Hpost) as Hne.
  destruct Hpost as ((Hl & Hall) & _).
  destruct (Hall 0%nat) as (Hcat & _ & _ & Hw); [lia|].
  split; [exact Hlen|]. split; [exact Hw|].
  rewrite (Htot fuel Hfuel).
  destruct (contexts st) as [|c cs]; [cbn in Hne; lia|].
  destruct (labels st) as [|l ls]; [discriminate|].
  exists c, cs, l, ls. split; [reflexivity|exact Hcat].
Qed.

Lemma encode_accepted_nonempty_witness :
  exists c cs l ls,
    encode toy_tokenizer 1 toy_random 40 toy_line
      = Some (inr (Some (c :: cs), Some (l :: ls),
                   Z.of_nat (String.length toy_line))).
Proof.
  destruct (encode_accepted_nonempty toy_tokenizer 1 toy_random 40 toy_line)
    as (_ & _ & c & cs & l & ls & Henc & _).
  - unfold rejected. vm_compute. intros [H|H]; discriminate H.
  - vm_compute. lia.
  - exists c, cs, l, ls. exact Henc.
Defined.

(** C7: an accepted line whose ids, sentinel included, are 40 gets,
    for every sequence of draws, at least one pair; the lengths of that
    pair sum to at most 40 and each lies strictly between 4 and 256. *)
Theorem encode_forty tokenizer_encode eod_id random fuel line :
  Z.of_nat (String.length line) <= 5000000 ->
  len (tokens tokenizer_encode line ++ [eod_id]) = 40 ->
  (40 <= fuel)%nat ->
  exists cs ls,
    encode tokenizer_encode eod_id random fuel line
      = Some (inr (Some cs, Some ls, Z.of_nat (String.length line))) /\
    exists c l, In (c, l) (combine cs ls) /\
      len c + len l <= 40 /\
      4 < len c < 256 /\ 4 < len l < 256.
Proof.
  intros Hline H40 Hfuel. rewrite len_doc in H40.
  assert (Hacc : ~ rejected tokenizer_encode line)
    by (unfold rejected; lia).
  destruct (encode_total tokenizer_encode eod_id random line Hacc)
    as (st & Hpost & Htot).
  exists (contexts st), (labels st). split.
  { apply Htot. unfold Py.len in H40. lia. }
  assert (Hne : (0 < List.length (contexts st))%nat).
  { apply (loop_post_nonempty random _ st Hpost). rewrite len_doc. lia. }
  destruct Hpost as ((Hl & Hall) & _).
  destruct (Hall 0%nat Hne) as (Hcat & Hc & Hlb & Hw).
  exists (nth 0 (contexts st) []), (nth 0 (labels st) []).
  split; [apply nth_In_combine; assumption|].
  rewrite <- !in_range_spec. split; [|auto].
  rewrite <- len_app, Hcat, len_window, len_doc. cbn [offset]. lia.
Qed.

Lemma encode_forty_witness :
  exists cs ls c l,
    encode toy_tokenizer 1 toy_random 40 toy_line
      = Some (inr (Some cs, Some ls, Z.of_nat (String.length toy_line))) /\
    In (c, l) (combine cs ls) /\ len c + len l <= 40.
Proof.
  destruct (encode_forty toy_tokenizer 1 toy_random 40 toy_line)
    as (cs & ls & Henc & c & l & Hin & Hsum & _).
  - vm_compute. discriminate.
  - reflexivity.
  - lia.
  - exists cs, ls, c, l. auto.
Defined.

(** C10: every cut of the split, tentative or taken from the table,
    gives two parts whose concatenation is the piece; and for every pair
    [encode] returns, context followed by label is the slice
    [doc_ids[i : i + tmp - 1 + 255]] taken at the offset and with the
    draw of the pass that appended the pair. *)
Theorem encode_pairs_concat tokenizer_encode eod_id random fuel line :
  (forall tmp piece,
     upto piece (tmp - 1) ++ from piece (tmp - 1) = piece /\
     fst (override piece (upto piece (tmp - 1), from piece (tmp - 1)))
       ++ snd (override piece (upto piece (tmp - 1), from piece (tmp - 1)))
       = piece /\
     fst (split tmp piece) ++ snd (split tmp piece) = piece) /\
  (forall cs ls n,
     encode tokenizer_encode eod_id random fuel line
       = Some (inr (Some cs, Some ls, n)) ->
     List.length cs = List.length ls /\
     forall k, (k < List.length cs)%nat ->
       nth k cs [] ++ nth k ls []
         = range (tokens tokenizer_encode line ++ [eod_id])
                 (offset random k)
                 (offset random k + draw_tmp (random k) - 1 + 255)).
Proof.
  split.
  - intros tmp piece. split; [apply upto_from|].
    split; [apply override_concat; apply upto_from|apply split_concat].
  - intros cs ls n Henc. apply encode_inv in Henc.
    destruct Henc as (_ & st & ((Hlen & Hall) & _) & -> & -> & _).
    split; [exact Hlen|]. intros k Hk.
    destruct (Hall k Hk) as (Hcat & _). exact Hcat.
Qed.

Lemma encode_pairs_concat_witness :
  exists cs ls n,
    encode toy_tokenizer 1 toy_random 40 toy_line
      = Some (inr (Some cs, Some ls, n)) /\
    nth 0 cs [] ++ nth 0 ls []
      = range (tokens toy_tokenizer toy_line ++ [1]) 0
              (0 + draw_tmp (toy_random 0) - 1 + 255).
Proof.
  do 3 eexists. split; [vm_compute; reflexivity|].
  apply (proj2 (proj2 (encode_pairs_concat toy_tokenizer 1 toy_random 40
                         toy_line) _ _ _ eq_refl) 0%nat).
  cbn. lia.
Defined.

(** C6: a pass through the loop body that reaches its last statement
    adds [tmp - 1], at least 31, to [i]; so from [i = 0] the loop ends
    for every document and every sequence of draws, the body being
    entered at most [len(doc_ids)] times.  The pieces split into pairs
    are the windows [doc_ids[i : i + tmp + 254]] at offsets that grow
    from one pass to the next, each starting inside the document; every
    position below the final [i] lies in the segment and in the window
    of one of them; and the loop is left either with [i] past the end or
    with a tail of fewer than 12 items. *)
Theorem while_loop_terminates random doc_ids :
  (forall st st', loop_body random doc_ids st = Continue st' ->
     i st' = i st + (draw_tmp (random (draws st)) - 1) /\
     i st + 31 <= i st') /\
  exists st,
    (forall fuel, (List.length doc_ids <= fuel)%nat ->
       while_loop random fuel doc_ids init = Some (inr st)) /\
    (draws st <= List.length doc_ids)%nat /\
    i st = offset random (List.length (contexts st)) /\
    (forall k, (k < List.length (contexts st))%nat ->
       nth k (contexts st) [] ++ nth k (labels st) []
         = window random doc_ids k /\
       0 <= offset random k < len doc_ids /\
       offset random k + 31 <= offset random (S k)) /\
    (forall j, 0 <= j < len doc_ids -> j < i st ->
       exists k, (k < List.length (contexts st))%nat /\
         offset random k <= j < offset random (S k) /\
         j < offset random k + len (window random doc_ids k)) /\
    (len doc_ids <= i st \/ len doc_ids - i st < 12).
Proof.
  split.
  - intros st st' Hb. apply loop_body_continue in Hb. lia.
  - destruct (while_loop_total random doc_ids) as (st & Hpost & Htot).
    exists st. split; [exact Htot|].
    split; [apply (loop_post_draws random doc_ids st Hpost)|].
    pose proof Hpost as (Hok & Hi & Hexit).
    split; [exact Hi|]. split; [|split].
    + intros k Hk. destruct Hok as [Hlen Hall].
      destruct (Hall k Hk) as (Hcat & _).
      split; [exact Hcat|].
      split; [apply (pairs_ok_offset random doc_ids _ _ k (conj Hlen Hall) Hk)|].
      rewrite offset_succ. pose proof (draw_tmp_ge (random k)). lia.
    + intros j Hj Hji. rewrite Hi in Hji.
      destruct (offset_tiles random _ j (conj (proj1 Hj) Hji))
        as (k & Hk & Hseg).
      exists k. split; [exact Hk|]. split; [exact Hseg|].
      rewrite len_window. rewrite offset_succ in Hseg. lia.
    + lia.
Qed.

Lemma while_loop_terminates_witness :
  exists st,
    while_loop toy_random 40 (tokens toy_tokenizer toy_line ++ [1]) init
      = Some (inr st) /\
    (draws st <= 40)%nat.
Proof.
  destruct (proj2 (while_loop_terminates toy_random
                     (tokens toy_tokenizer toy_line ++ [1])))
    as (st & Hrun & Hd & _).
  exists st. split; [apply Hrun; vm_compute; lia|exact Hd].
Defined.

(** ** Claims on the draw and on the override table *)

(** C4, as stated, fails: of the 100 draws [0 .. 99], 52 and not 50 are
    bucketed to 32, so its chance is not 4/8, and the four chances are
    not 4/8, 2/8, 1/8 and 1/8. *)
Lemma draw_not_eighths :
  ~ (probability 32 == 4 # 8 /\ probability 64 == 2 # 8 /\
     probability 128 == 1 # 8 /\ probability 256 == 1 # 8).
Proof. intros [H _]. vm_compute in H. discriminate H. Qed.

(** C4, amended: the residues 0-3 of the draw modulo 8 give 32, the
    residues 4-5 give 64, 6 gives 128 and 7 gives 256; of the 100
    equally likely draws [0 .. 99] exactly 52 give 32, 24 give 64, 12
    give 128 and 12 give 256, so the chances are 52/100, 24/100, 12/100
    and 12/100. *)
Theorem draw_distribution :
  (forall r,
     (r mod 8 <= 3 -> draw_tmp r = 32) /\
     (4 <= r mod 8 <= 5 -> draw_tmp r = 64) /\
     (r mod 8 = 6 -> draw_tmp r = 128) /\
     (r mod 8 = 7 -> draw_tmp r = 256)) /\
  List.length (draws_giving 32) = 52%nat /\
  List.length (draws_giving 64) = 24%nat /\
  List.length (draws_giving 128) = 12%nat /\
  List.length (draws_giving 256) = 12%nat /\
  probability 32 == 52 # 100 /\ probability 64 == 24 # 100 /\
  probability 128 == 12 # 100 /\ probability 256 == 12 # 100.
Proof.
  split.
  - intros r. unfold draw_tmp.
    destruct (Z.leb_spec (r mod 8) 3), (Z.leb_spec (r mod 8) 5),
      (Z.eqb_spec (r mod 8) 6), (Z.eqb_spec (r mod 8) 7);
      repeat split; intros; lia.
  - repeat split; vm_compute; reflexivity.
Qed.

Lemma draw_distribution_witness : 97 mod 8 <= 3 /\ draw_tmp 97 = 32.
Proof.
  split; [vm_compute; discriminate|].
  apply (proj1 (proj1 draw_distribution 97)). vm_compute. discriminate.
Defined.

(** C5, as stated, fails: the fixed-size part is not the larger part in
    every bucket.  A piece of 16 items with [tmp = 32] has an empty
    tentative label, falls in the bucket of index 1 and is cut into a
    prefix of 7 and a rest of 9. *)
Lemma override_fixed_part_not_larger :
  ~ (forall tmp piece index,
       len (from piece (tmp - 1)) < 63 ->
       bucket (len piece) = Some index ->
       Z.max (len (fst (split tmp piece))) (len (snd (split tmp piece)))
         = fixed_size index).
Proof.
  intros H. specialize (H 32 (repeat 5 16) 1%nat).
  vm_compute in H. specialize (H eq_refl eq_refl). discriminate H.
Qed.

Lemma find_bucket_none bounds n index :
  find_bucket bounds n index = None <-> Forall (fun b => b <= n) bounds.
Proof.
  revert index. induction bounds as [|b bounds IH]; intros index; cbn.
  - split; auto.
  - destruct (Z.ltb_spec n b).
    + split; [discriminate|]. intros Hall. inversion Hall. lia.
    + rewrite IH. split; [auto|]. intros Hall. inversion Hall. assumption.
Qed.

(** C5, amended: when the tentative label is shorter than 63 the split
    is the one the table gives: the bucket of [len(piece)] among the
    upper bounds 16, 24, 32, 48, 64, 96, 128, 192, 256, 384, 512, a
    fixed-size suffix in the buckets of even index and a fixed-size
    prefix in those of odd index, and the tentative split from 512 on.
    For a piece of at least 12 items the fixed size is 7, 7, 15, 15, 31,
    31, 63, 63, 127, 127, 255 by bucket; a fixed-size suffix is the
    label and the context is at most one item longer than it; a
    fixed-size prefix is the context and is strictly shorter than the
    label. *)
Theorem override_table tmp piece :
  len (from piece (tmp - 1)) < 63 ->
  split tmp piece = table_split tmp piece /\
  (bucket (len piece) = None <-> 512 <= len piece) /\
  (512 <= len piece ->
   split tmp piece = (upto piece (tmp - 1), from piece (tmp - 1))) /\
  (forall index, bucket (len piece) = Some index -> 12 <= len piece ->
     if Nat.even index then
       snd (split tmp piece) = from piece (- fixed_size index) /\
       len (snd (split tmp piece)) = fixed_size index /\
       len (fst (split tmp piece)) <= fixed_size index + 1
     else
       fst (split tmp piece) = upto piece (fixed_size index) /\
       len (fst (split tmp piece)) = fixed_size index /\
       len (fst (split tmp piece)) < len (snd (split tmp piece))).
Proof.
  intros Hshort.
  assert (Heq : split tmp piece = table_split tmp piece).
  { unfold split. destruct (Z.ltb_spec (len (from piece (tmp - 1))) 63);
      [|lia].
    unfold override, table_split, bucket, bucket_bounds, find_bucket.
    split_cases; reflexivity. }
  assert (Hnone : bucket (len piece) = None <-> 512 <= len piece).
  { unfold bucket. rewrite find_bucket_none. unfold bucket_bounds. split.
    - intros Hall. repeat (inversion Hall as [|? ? ? Hall']; subst;
                           clear Hall; rename Hall' into Hall); lia.
    - intros Hbig. repeat constructor; lia. }
  split; [exact Heq|]. split; [exact Hnone|]. split.
  - intros Hbig. rewrite Heq. unfold table_split.
    rewrite (proj2 Hnone Hbig). reflexivity.
  - intros index Hb Hlen. rewrite Heq. unfold table_split. rewrite Hb.
    unfold bucket, bucket_bounds, find_bucket in Hb.
    repeat match type of Hb with
           | (if ?a <? ?b then _ else _) = _ =>
             destruct (Z.ltb_spec a b)
           end;
      try discriminate; injection Hb as <-;
      cbn [Nat.even fst snd];
      (split; [reflexivity|]);
      rewrite len_upto, len_from;
      change (fixed_size 0) with 7; change (fixed_size 1) with 7;
      change (fixed_size 2) with 15; change (fixed_size 3) with 15;
      change (fixed_size 4) with 31; change (fixed_size 5) with 31;
      change (fixed_size 6) with 63; change (fixed_size 7) with 63;
      change (fixed_size 8) with 127; change (fixed_size 9) with 127;
      change (fixed_size 10) with 255;
      rewrite ?bound_neg, ?bound_nonneg by lia; lia.
Qed.

Lemma override_table_witness :
  len (from (repeat 5 16) (32 - 1)) < 63 /\
  split 32 (repeat 5 16) = table_split 32 (repeat 5 16).
Proof.
  split; [reflexivity|]. apply override_table. reflexivity.
Defined.

(** ** Claims on the reduction loop *)

Lemma write_pairs_app pair_ids label_ids calls :
  write_pairs pair_ids label_ids calls
  = calls ++ flat_map pair_calls (combine pair_ids label_ids).
Proof.
  unfold write_pairs. revert calls.
  induction (combine pair_ids label_ids) as [|[pids lids] ps IH];
    intros calls; cbn [fold_left flat_map].
  - symmetry. apply app_nil_r.
  - rewrite IH, <- app_assoc. reflexivity.
Qed.

Lemma main_body_calls st doc :
  add_item_calls (main_body st doc)
  = add_item_calls st ++ flat_map pair_calls (pairs_of doc).
Proof.
  destruct doc as [[[pair_ids|] [label_ids|]] bytes_processed]; cbn;
    try (symmetry; apply app_nil_r).
  apply write_pairs_app.
Qed.

Lemma main_loop_calls encoded_docs st :
  add_item_calls (main_loop encoded_docs st)
  = add_item_calls st
    ++ flat_map pair_calls (flat_map pairs_of encoded_docs).
Proof.
  unfold main_loop. revert st.
  induction encoded_docs as [|doc docs IH]; intros st; cbn [fold_left flat_map].
  - symmetry. apply app_nil_r.
  - rewrite IH, main_body_calls, flat_map_app, app_assoc. reflexivity.
Qed.

Lemma received_pair_calls ps :
  received builder_context (flat_map pair_calls ps) = map fst ps /\
  received builder_target (flat_map pair_calls ps) = map snd ps.
Proof.
  induction ps as [|[c l] ps [IHc IHl]]; [split; reflexivity|].
  cbn. rewrite IHc, IHl. split; reflexivity.
Qed.

Lemma combine_fst_snd {A B} (ps : list (A * B)) :
  combine (map fst ps) (map snd ps) = ps.
Proof.
  induction ps as [|[a b] ps IH]; [reflexivity|]. cbn. rewrite IH. reflexivity.
Qed.

Lemma nth_error_combine {A B} (xs : list A) (ys : list B) k x y :
  nth_error xs k = Some x -> nth_error ys k = Some y ->
  nth_error (combine xs ys) k = Some (x, y).
Proof.
  revert ys k. induction xs as [|x' xs IH]; intros [|y' ys] [|k] Hx Hy;
    cbn in *; try discriminate.
  - congruence.
  - apply IH; assumption.
Qed.

Lemma In_combine_nth_error {A B} (xs : list A) (ys : list B) x y :
  In (x, y) (combine xs ys) ->
  exists p, nth_error xs p = Some x /\ nth_error ys p = Some y.
Proof.
  revert ys. induction xs as [|x' xs IH]; intros [|y' ys] Hin;
    cbn in Hin; try contradiction.
  destruct Hin as [Heq|Hin].
  - injection Heq as -> ->. exists 0%nat. split; reflexivity.
  - destruct (IH ys Hin) as (p & Hx & Hy). exists (S p). split; assumption.
Qed.

(** C2: after the loop of [main] has run over any stream of results,
    started on fresh builders, the two builders have received the same
    number of [add_item] calls; the calls alternate, one on the context
    builder then one on the target builder for each chunk pair; the
    pairs received are the zipped pairs of the results that were not
    rejected, in the order of the stream and of each result; so the
    [k]-th context and the [k]-th target are the context and the label at
    one position [p] of one result [d]. *)
Theorem main_loop_pairing encoded_docs :
  let calls := add_item_calls (main_loop encoded_docs (MainState 0 [])) in
  let cs := received builder_context calls in
  let ls := received builder_target calls in
  List.length cs = List.length ls /\
  calls = flat_map pair_calls (combine cs ls) /\
  combine cs ls = flat_map pairs_of encoded_docs /\
  (forall k c l,
     nth_error cs k = Some c -> nth_error ls k = Some l ->
     exists d p pair_ids label_ids bytes_processed,
       nth_error encoded_docs d
         = Some (Some pair_ids, Some label_ids, bytes_processed) /\
       nth_error pair_ids p = Some c /\ nth_error label_ids p = Some l).
Proof.
  intros calls cs ls.
  assert (Hcalls : calls = flat_map pair_calls (flat_map pairs_of encoded_docs))
    by (unfold calls; rewrite main_loop_calls; reflexivity).
  destruct (received_pair_calls (flat_map pairs_of encoded_docs)) as [Hc Hl].
  rewrite <- Hcalls in Hc, Hl. fold cs in Hc. fold ls in Hl.
  assert (Hzip : combine cs ls = flat_map pairs_of encoded_docs)
    by (rewrite Hc, Hl; apply combine_fst_snd).
  split; [rewrite Hc, Hl, !length_map; reflexivity|].
  split; [rewrite Hzip; exact Hcalls|]. split; [exact Hzip|].
  intros k c l Hkc Hkl.
  pose proof (nth_error_In _ _ (nth_error_combine _ _ _ _ _ Hkc Hkl)) as Hin.
  rewrite Hzip in Hin. apply in_flat_map in Hin.
  destruct Hin as (doc & Hdoc & Hpair).
  destruct (In_nth_error _ _ Hdoc) as (d & Hd).
  destruct doc as [[[pair_ids|] [label_ids|]] bytes_processed];
    cbn in Hpair; try contradiction.
  destruct (In_combine_nth_error _ _ _ _ Hpair) as (p & Hp & Hq).
  exists d, p, pair_ids, label_ids, bytes_processed. auto.
Qed.

Lemma main_loop_pairing_witness :
  exists d p pair_ids label_ids bytes_processed,
    nth_error [(Some [[1; 2]; [3]], Some [[4]; [5; 6]], 9); (None, None, 0);
               (Some [[7]], Some [[8]], 2)] d
      = Some (Some pair_ids, Some label_ids, bytes_processed) /\
    nth_error pair_ids p = Some [7] /\ nth_error label_ids p = Some [8].
Proof.
  apply (proj2 (proj2 (proj2 (main_loop_pairing
           [(Some [[1; 2]; [3]], Some [[4]; [5; 6]], 9); (None, None, 0);
            (Some [[7]], Some [[8]], 2)]))) 2%nat); reflexivity.
Defined.

(** ** Claims on the builder *)

Module BuilderFacts.
Import Builder.

Lemma length_le_bytes n v : List.length (le_bytes n v) = n.
Proof.
  revert v. induction n as [|n IH]; intros v; cbn; [reflexivity|].
  rewrite IH. reflexivity.
Qed.

Lemma len_flat_map_le_bytes w item :
  len (flat_map (le_bytes w) item) = Z.of_nat w * len item.
Proof.
  induction item as [|v item IH]; [cbn; lia|].
  cbn [flat_map]. rewrite len_app, IH. unfold Py.len.
  rewrite length_le_bytes. cbn [List.length]. lia.
Qed.

Lemma sum_app l1 l2 : sum (l1 ++ l2) = sum l1 + sum l2.
Proof.
  unfold sum. induction l1 as [|x l1 IH]; cbn; [reflexivity|].
  rewrite IH. lia.
Qed.

Lemma sum_firstn_succ l k :
  (k < List.length l)%nat ->
  sum (firstn (S k) l) = sum (firstn k l) + nth k l 0.
Proof.
  revert k. induction l as [|x l IH]; intros k Hk; [cbn in Hk; lia|].
  destruct k as [|k]; [cbn; lia|].
  cbn [List.length] in Hk.
  change (sum (firstn (S (S k)) (x :: l))) with (x + sum (firstn (S k) l)).
  change (sum (firstn (S k) (x :: l))) with (x + sum (firstn k l)).
  cbn [nth]. rewrite IH by lia. lia.
Qed.

Lemma wf_open_builder w : wf (open w).
Proof. constructor; cbn; try reflexivity; try lia. Qed.

Lemma wf_add_item b item :
  wf b -> exists b', add_item b item = Some b' /\ wf b' /\
                     itemWidth b' = itemWidth b.
Proof.
  intros [Ho Hb Hc Hp]. unfold add_item. rewrite Ho.
  eexists. split; [reflexivity|]. split; [|reflexivity].
  constructor; cbn.
  - reflexivity.
  - rewrite len_app, len_flat_map_le_bytes, sum_app, Hb. cbn. lia.
  - rewrite !length_app. cbn. lia.
  - intros k Hk. rewrite length_app in Hk. cbn in Hk.
    destruct (Nat.eq_dec k (List.length (sizes b))) as [->|Hne].
    + rewrite <- Hc at 1. rewrite nth_middle.
      rewrite firstn_app, firstn_all, Nat.sub_diag. cbn [firstn].
      rewrite app_nil_r. exact Hb.
    + rewrite app_nth1 by lia. rewrite firstn_app.
      replace (k - List.length (sizes b))%nat with 0%nat by lia.
      cbn [firstn]. rewrite app_nil_r. apply Hp. lia.
Qed.

Lemma wf_end_document b :
  wf b -> exists b', end_document b = Some b' /\ wf b' /\
                     itemWidth b' = itemWidth b.
Proof.
  intros [Ho Hb Hc Hp]. unfold end_document. rewrite Ho.
  eexists. split; [reflexivity|]. split; [|reflexivity].
  constructor; cbn; auto.
Qed.

Lemma wf_run ops :
  forall b, wf b ->
  exists b', run b ops = Some b' /\ wf b' /\ itemWidth b' = itemWidth b.
Proof.
  induction ops as [|o ops IH]; intros b Hwf; cbn [run].
  - exists b. auto.
  - assert (Hstep : exists b1, step b o = Some b1 /\ wf b1 /\
                               itemWidth b1 = itemWidth b)
      by (destruct o; [apply wf_add_item|apply wf_end_document]; exact Hwf).
    destruct Hstep as (b1 & -> & Hwf1 & Hw1).
    destruct (IH b1 Hwf1) as (b' & Hrun & Hwf' & Hw').
    exists b'. split; [exact Hrun|]. split; [exact Hwf'|congruence].
Qed.

(** C8 (the builder is modelled from the specification): whatever
    calls a builder of element width [w] takes, it can be finalized, and
    in the index written every record [k] has
    [pointer[k] = w * sum(size[0..k])], the range [0..k] being the
    records before [k], as the example of the claim fixes it; the sum
    with [size[k]] added is where record [k] ends; the bin file holds
    [w * sum(size)] bytes.  For three records of 3, 5 and 2 items at
    width 2 the bin file has 20 bytes, the pointers are [0, 6, 16] and
    the sizes [3, 5, 2]. *)
Theorem finalize_pointers :
  (forall w ops,
     exists b b' idx,
       run (open w) ops = Some b /\ finalize b = Some (b', idx) /\
       len (bin b') = Z.of_nat w * sum (size_array idx) /\
       List.length (pointer_array idx) = List.length (size_array idx) /\
       forall k, (k < List.length (size_array idx))%nat ->
         nth k (pointer_array idx) 0
         = Z.of_nat w * sum (firstn k (size_array idx)) /\
         nth k (pointer_array idx) 0 + Z.of_nat w * nth k (size_array idx) 0
         = Z.of_nat w * sum (firstn (S k) (size_array idx))) /\
  (forall r1 r2 r3,
     len r1 = 3 -> len r2 = 5 -> len r3 = 2 ->
     exists b b' idx,
       run (open 2) [AddItem r1; AddItem r2; AddItem r3] = Some b /\
       finalize b = Some (b', idx) /\
       len (bin b') = 20 /\
       pointer_array idx = [0; 6; 16] /\
       size_array idx = [3; 5; 2]).
Proof.
  split.
  - intros w ops.
    destruct (wf_run ops (open w) (wf_open_builder w))
      as (b & Hrun & [Ho Hb Hc Hp] & Hw).
    cbn in Hw. rewrite Hw in *.
    exists b. unfold finalize. rewrite Ho. do 2 eexists.
    split; [exact Hrun|]. split; [reflexivity|].
    cbn [size_array pointer_array bin].
    split; [exact Hb|]. split; [exact Hc|]. intros k Hk.
    split; [apply Hp; exact Hk|].
    rewrite sum_firstn_succ, (Hp k Hk) by exact Hk. lia.
  - intros r1 r2 r3 H1 H2 H3.
    do 3 eexists. split; [reflexivity|]. split; [reflexivity|].
    cbn -[Py.len Z.mul Z.add Z.of_nat le_bytes].
    rewrite !len_app, !len_flat_map_le_bytes, H1, H2, H3.
    repeat split; reflexivity.
Qed.

Lemma finalize_pointers_witness :
  exists b b' idx,
    run (open 2) [AddItem [1; 2; 3]; AddItem [4; 5; 6; 7; 8]; AddItem [9; 10]]
      = Some b /\
    finalize b = Some (b', idx) /\
    pointer_array idx = [0; 6; 16] /\ size_array idx = [3; 5; 2].
Proof.
  destruct (proj2 finalize_pointers [1; 2; 3] [4; 5; 6; 7; 8] [9; 10]
              eq_refl eq_refl eq_refl)
    as (b & b' & idx & Hrun & Hfin & _ & Hp & Hs).
  exists b, b', idx. auto.
Defined.
End BuilderFacts.

(** * Further properties of the chunker *)

Section ChunkerFacts.
Variable random : nat -> Z.
Variable doc_ids : list Z.

Local Abbreviation off := (offset random).
Local Abbreviation win := (window random doc_ids).
Local Abbreviation tmp_of k := (draw_tmp (random k)).

Lemma offset_upper k : off k <= 255 * Z.of_nat k.
Proof.
  induction k as [|k IH]; [cbn; lia|].
  rewrite offset_succ. pose proof (draw_tmp_le (random k)). lia.
Qed.

(** The pairs appended so far are the splits of the windows so far. *)
Lemma while_loop_splits fuel :
  forall st st',
  i st = off (draws st) ->
  List.length (contexts st) = draws st ->
  List.length (labels st) = draws st ->
  (forall k, (k < draws st)%nat ->
     nth k (contexts st) [] = fst (split (tmp_of k) (win k)) /\
     nth k (labels st) [] = snd (split (tmp_of k) (win k))) ->
  while_loop random fuel doc_ids st = Some (inr st') ->
  forall k, (k < List.length (contexts st'))%nat ->
    nth k (contexts st') [] = fst (split (tmp_of k) (win k)) /\
    nth k (labels st') [] = snd (split (tmp_of k) (win k)).
Proof.
  induction fuel as [|fuel IH]; intros st st' Hi Hc Hl Hall Hrun;
    cbn [while_loop] in Hrun;
    destruct (i st <? len doc_ids); try discriminate;
    try (injection Hrun as <-; rewrite Hc; exact Hall).
  unfold loop_body in Hrun.
  destruct (len _ <? 12).
  { injection Hrun as <-. cbn. rewrite Hc. exact Hall. }
  destruct (split _ _) as [context label] eqn:Hs.
  destruct (negb _); [discriminate|]. destruct (negb _); [discriminate|].
  refine (IH _ _ _ _ _ _ Hrun);
    [cbn; rewrite Hi; reflexivity
    |cbn; rewrite length_app; cbn; lia
    |cbn; rewrite length_app; cbn; lia|].
  cbn. intros k Hk.
  destruct (Nat.eq_dec k (draws st)) as [->|Hne].
  - rewrite <- Hc at 1. rewrite <- Hl at 3. rewrite !nth_middle.
    unfold window. rewrite <- Hi, Hs. split; reflexivity.
  - rewrite !app_nth1 by lia. apply Hall. lia.
Qed.

(** The window after the last pair is too short to be split. *)
Lemma loop_post_stop st :
  loop_post random doc_ids st -> len (win (List.length (contexts st))) < 12.
Proof.
  intros (_ & Hi & Hexit). rewrite len_window, <- Hi.
  pose proof (draw_tmp_ge (random (List.length (contexts st)))).
  destruct Hexit as [[_ Hout]|[_ Hin]]; lia.
Qed.

(** The last window reaches the end of the document. *)
Lemma loop_post_last_window st n :
  loop_post random doc_ids st -> List.length (contexts st) = S n ->
  0 <= off n < len doc_ids /\
  win n = skipn (Z.to_nat (off n)) doc_ids.
Proof.
  intros (Hok & Hi & Hexit) Hn.
  pose proof (pairs_ok_offset random doc_ids _ _ n Hok) as Ho.
  rewrite Hn in Ho. specialize (Ho (Nat.lt_succ_diag_r n)).
  split; [exact Ho|].
  rewrite Hn, offset_succ in Hi.
  pose proof (draw_tmp_ge (random n)) as Hge.
  unfold window, range, Py.slice.
  rewrite !bound_nonneg by lia.
  replace (Z.min (off n) (len doc_ids)) with (off n) by lia.
  apply firstn_all2. rewrite length_skipn. unfold Py.len in *.
  destruct Hexit as [[_ Hout]|[_ Hin]]; lia.
Qed.

(** Every position of a document of at least 12 ids lies in the window
    of a pair. *)
Lemma loop_post_covers st j :
  loop_post random doc_ids st -> 12 <= len doc_ids ->
  0 <= j < len doc_ids ->
  exists k, (k < List.length (contexts st))%nat /\
            off k <= j < off k + len (win k).
Proof.
  intros Hpost Hlen Hj.
  pose proof (loop_post_nonempty random doc_ids st Hpost Hlen) as Hne.
  destruct Hpost as (Hok & Hi & Hexit).
  destruct (Z.lt_ge_cases j (i st)) as [Hlt|Hge].
  - rewrite Hi in Hlt.
    destruct (offset_tiles random _ j (conj (proj1 Hj) Hlt)) as (k & Hk & Hseg).
    exists k. split; [exact Hk|].
    rewrite len_window. rewrite offset_succ in Hseg. lia.
  - destruct (List.length (contexts st)) as [|n] eqn:Hn; [lia|].
    exists n. split; [lia|].
    pose proof (pairs_ok_offset random doc_ids _ _ n Hok) as Ho.
    rewrite Hn in Ho. specialize (Ho (Nat.lt_succ_diag_r n)).
    rewrite offset_succ in Hi. pose proof (draw_tmp_ge (random n)).
    rewrite len_window. destruct Hexit as [[_ Hout]|[_ Hin]]; lia.
Qed.

(** The item of a window at a position is the item of the document. *)
Lemma nth_error_window k j :
  off k <= Z.of_nat j < off k + len (win k) ->
  nth_error (win k) (j - Z.to_nat (off k)) = nth_error doc_ids j.
Proof.
  intros Hj. pose proof (offset_nonneg random k) as H0.
  pose proof (draw_tmp_ge (random k)) as Hge.
  rewrite len_window in Hj.
  unfold window, range, Py.slice.
  rewrite !bound_nonneg by lia.
  rewrite nth_error_firstn, nth_error_skipn.
  replace (Z.min (off k) (len doc_ids)) with (off k) by lia.
  replace (Z.to_nat (off k) + (j - Z.to_nat (off k)))%nat with j by lia.
  destruct (Nat.ltb_spec (j - Z.to_nat (off k))
              (Z.to_nat (Z.min (off k + tmp_of k - 1 + 255) (len doc_ids)
                         - off k))); [reflexivity|lia].
Qed.
End ChunkerFacts.

Section EncodeMore.
Variable tokenizer_encode : string -> list Z.
Variable eod_id : Z.
Variable random : nat -> Z.

Local Abbreviation toks := (tokens tokenizer_encode).
Local Abbreviation enc := (encode tokenizer_encode eod_id random).
Local Abbreviation doc line := (toks line ++ [eod_id]).

(** A result with lists is what the loop left, run on the tokens of an
    accepted line with the sentinel id appended. *)
Lemma encode_run fuel line cs ls n :
  enc fuel line = Some (inr (Some cs, Some ls, n)) ->
  12 <= len (toks line) /\
  exists st, while_loop random fuel (doc line) init = Some (inr st) /\
             loop_post random (doc line) st /\
             cs = contexts st /\ ls = labels st.
Proof.
  intros Henc.
  destruct (rejected_dec tokenizer_encode line) as [Hr|Hacc].
  - rewrite encode_rejected in Henc by exact Hr. discriminate.
  - split; [unfold rejected in Hacc; lia|].
    rewrite encode_accepted in Henc by exact Hacc.
    destruct (while_loop _ _ _ _) as [[e|st]|] eqn:Hrun; try discriminate.
    exists st. split; [reflexivity|].
    split; [eapply while_loop_result; eauto|].
    injection Henc as <- <- <-. auto.
Qed.

Lemma encode_splits fuel line cs ls n :
  enc fuel line = Some (inr (Some cs, Some ls, n)) ->
  List.length cs = List.length ls /\
  (forall k, (k < List.length cs)%nat ->
     12 <= len (window random (doc line) k) /\
     nth k cs [] = fst (split (draw_tmp (random k))
                              (window random (doc line) k)) /\
     nth k ls [] = snd (split (draw_tmp (random k))
                              (window random (doc line) k))) /\
  len (window random (doc line) (List.length cs)) < 12.
Proof.
  intros Henc. apply encode_run in Henc.
  destruct Henc as (_ & st & Hrun & Hpost & -> & ->).
  pose proof Hpost as ((Hlen & Hall) & _).
  split; [exact Hlen|]. split; [|apply loop_post_stop; exact Hpost].
  intros k Hk. split; [apply (Hall k Hk)|].
  refine (while_loop_splits random (doc line) fuel init st _ _ _ _ Hrun k Hk);
    try reflexivity.
  cbn. intros k' Hk'. lia.
Qed.

(** X1: the lists [encode] returns are, pair by pair, the splits of the
    successive windows of the document at the draws made, up to and not
    including the first window of fewer than 12 items. *)
Theorem encode_splits_windows fuel line cs ls n :
  enc fuel line = Some (inr (Some cs, Some ls, n)) ->
  List.length cs = List.length ls /\
  (forall k, (k < List.length cs)%nat ->
     12 <= len (window random (doc line) k) /\
     nth k cs [] = fst (split (draw_tmp (random k))
                              (window random (doc line) k)) /\
     nth k ls [] = snd (split (draw_tmp (random k))
                              (window random (doc line) k))) /\
  len (window random (doc line) (List.length cs)) < 12.
Proof. apply encode_splits. Qed.

(** X2: no id of an accepted line is lost: every position of the
    document, the sentinel id included, lies in the window of some
    returned pair, at the position its offset gives. *)
Theorem encode_covers fuel line cs ls n :
  enc fuel line = Some (inr (Some cs, Some ls, n)) ->
  forall j, (j < List.length (doc line))%nat ->
  exists k, (k < List.length cs)%nat /\
    (Z.to_nat (offset random k) <= j)%nat /\
    nth_error (nth k cs [] ++ nth k ls []) (j - Z.to_nat (offset random k))
      = nth_error (doc line) j.
Proof.
  intros Henc j Hj. apply encode_run in Henc.
  destruct Henc as (Htok & st & _ & Hpost & -> & ->).
  destruct (loop_post_covers random (doc line) st (Z.of_nat j) Hpost)
    as (k & Hk & Hin).
  - rewrite len_doc. lia.
  - unfold Py.len. lia.
  - exists k. split; [exact Hk|]. split; [lia|].
    destruct Hpost as ((_ & Hall) & _).
    destruct (Hall k Hk) as (-> & _).
    apply nth_error_window. exact Hin.
Qed.

Lemma app_ends_with (c l m : list Z) x :
  l <> [] -> c ++ l = m ++ [x] -> exists l', l = l' ++ [x].
Proof.
  intros Hne Heq.
  destruct (exists_last Hne) as (l' & y & ->).
  rewrite app_assoc in Heq. apply app_inj_tail in Heq.
  destruct Heq as [_ ->]. exists l'. reflexivity.
Qed.

(** X3: the last pair [encode] returns is a suffix of the document: its
    context followed by its label is the document from the offset of
    the last pass on, and its label ends with the sentinel id. *)
Theorem encode_last_pair fuel line cs ls n :
  enc fuel line = Some (inr (Some cs, Some ls, n)) ->
  exists cs' ls' c l l',
    cs = cs' ++ [c] /\ ls = ls' ++ [l] /\
    List.length cs' = List.length ls' /\
    c ++ l = skipn (Z.to_nat (offset random (List.length cs'))) (doc line) /\
    l = l' ++ [eod_id].
Proof.
  intros Henc. apply encode_run in Henc.
  destruct Henc as (Htok & st & _ & Hpost & -> & ->).
  assert (Hne : (0 < List.length (contexts st))%nat)
    by (apply (loop_post_nonempty random (doc line) st Hpost);
        rewrite len_doc; lia).
  pose proof Hpost as ((Hlen & Hall) & _).
  assert (Hcne : contexts st <> [])
    by (intros H; rewrite H in Hne; cbn in Hne; lia).
  assert (Hlne : labels st <> [])
    by (intros H; rewrite H in Hlen; cbn in Hlen; lia).
  destruct (exists_last Hcne) as (cs0 & c0 & Hcs).
  destruct (exists_last Hlne) as (ls0 & l0 & Hls).
  rewrite Hcs, Hls in *.
  rewrite !length_app in Hlen. cbn in Hlen.
  assert (Hlen' : List.length cs0 = List.length ls0) by lia.
  destruct (Hall (List.length cs0)) as (Hcat & _ & Hl & _);
    [rewrite length_app; cbn; lia|].
  assert (Hnl : nth (List.length cs0) (ls0 ++ [l0]) [] = l0)
    by (rewrite Hlen'; apply nth_middle).
  rewrite nth_middle, Hnl in Hcat. rewrite Hnl in Hl.
  destruct (loop_post_last_window random (doc line) st (List.length cs0) Hpost)
    as (Hoff & Hwin); [rewrite Hcs, length_app; cbn; lia|].
  rewrite Hwin in Hcat.
  exists cs0, ls0, c0, l0.
  assert (Hsuffix : exists m, skipn (Z.to_nat (offset random (List.length cs0)))
                                    (doc line) = m ++ [eod_id]).
  { rewrite skipn_app.
    replace (Z.to_nat (offset random (List.length cs0))
             - List.length (toks line))%nat with 0%nat
      by (rewrite len_doc in Hoff; unfold Py.len in Hoff; lia).
    eexists. reflexivity. }
  destruct Hsuffix as (m & Hm).
  destruct (app_ends_with c0 l0 m eod_id) as (l' & Hl').
  - apply in_range_spec in Hl. intros ->. cbn in Hl. lia.
  - rewrite Hcat. exact Hm.
  - exists l'. auto.
Qed.

(** X4: the number of pairs [n] returned for a document of [d] ids,
    the sentinel id counted, satisfies [31 * (n - 1) < d < 255 * n + 12]. *)
Theorem encode_pair_count fuel line cs ls n :
  enc fuel line = Some (inr (Some cs, Some ls, n)) ->
  31 * (len cs - 1) < len (doc line) < 255 * len cs + 12.
Proof.
  intros Henc. apply encode_run in Henc.
  destruct Henc as (Htok & st & _ & Hpost & -> & ->).
  assert (Hne : (0 < List.length (contexts st))%nat)
    by (apply (loop_post_nonempty random (doc line) st Hpost);
        rewrite len_doc; lia).
  destruct Hpost as (Hok & Hi & Hexit).
  pose proof (offset_upper random (List.length (contexts st))) as Hup.
  destruct (List.length (contexts st)) as [|m] eqn:Hm; [lia|].
  pose proof (pairs_ok_offset random (doc line) _ _ m Hok) as Ho.
  rewrite Hm in Ho. specialize (Ho (Nat.lt_succ_diag_r m)).
  pose proof (offset_lower random m) as Hlow.
  unfold Py.len at 1 4. rewrite Hm.
  destruct Hexit as [[_ Hout]|[_ Hin]]; lia.
Qed.

Lemma split_lengths tmp piece :
  tmp = 32 \/ tmp = 64 \/ tmp = 128 \/ tmp = 256 ->
  12 <= len piece <= tmp + 254 ->
  5 <= len (fst (split tmp piece)) /\ 7 <= len (snd (split tmp piece)).
Proof.
  intros Ht Hp. unfold split. rewrite len_from, bound_nonneg by lia.
  unfold override.
  split_cases; cbn [fst snd]; rewrite len_upto, len_from;
    rewrite ?bound_neg, ?bound_nonneg by lia; lia.
Qed.

(** X5: in every pair [encode] returns the label has at least 7 items,
    and context and label together have at least 12 and at most 510. *)
Theorem encode_pair_lengths fuel line cs ls n :
  enc fuel line = Some (inr (Some cs, Some ls, n)) ->
  forall c l, In (c, l) (combine cs ls) ->
    7 <= len l /\ 12 <= len c + len l <= 510.
Proof.
  intros Henc c l Hin.
  destruct (encode_splits fuel line cs ls n Henc) as (Hlen & Hall & _).
  destruct (In_combine_nth cs ls c l Hlen Hin) as (k & Hk & <- & <-).
  destruct (Hall k Hk) as (Hw & -> & ->).
  pose proof (draw_tmp_cases (random k)) as Hcases.
  pose proof (draw_tmp_le (random k)) as Hle.
  assert (Hup : len (window random (doc line) k) <= draw_tmp (random k) + 254).
  { rewrite len_window. pose proof (offset_nonneg random k). lia. }
  destruct (split_lengths (draw_tmp (random k)) _ Hcases (conj Hw Hup))
    as [_ Hl].
  split; [exact Hl|].
  rewrite <- len_app, split_concat. lia.
Qed.
End EncodeMore.

Lemma encode_splits_windows_witness :
  exists cs ls n,
    encode toy_tokenizer 1 toy_random 90 long_line
      = Some (inr (Some cs, Some ls, n)) /\
    len (window toy_random (tokens toy_tokenizer long_line ++ [1])
                (List.length cs)) < 12.
Proof.
  do 3 eexists. split; [vm_compute; reflexivity|].
  apply (encode_splits_windows toy_tokenizer 1 toy_random 90 long_line
           _ _ _ eq_refl).
Defined.

Lemma encode_covers_witness :
  exists cs ls n k,
    encode toy_tokenizer 1 toy_random 90 long_line
      = Some (inr (Some cs, Some ls, n)) /\
    nth_error (nth k cs [] ++ nth k ls [])
              (82 - Z.to_nat (offset toy_random k))
      = nth_error (tokens toy_tokenizer long_line ++ [1]) 82.
Proof.
  assert (Henc : exists r, encode toy_tokenizer 1 toy_random 90 long_line
                           = Some (inr (Some (fst r), Some (snd r), 86)))
    by (eexists (_, _); vm_compute; reflexivity).
  destruct Henc as ([cs ls] & Henc). cbn [fst snd] in Henc.
  destruct (encode_covers toy_tokenizer 1 toy_random 90 long_line
              cs ls 86 Henc 82%nat) as (k & _ & _ & Hk).
  - vm_compute. lia.
  - exists cs, ls, 86, k. split; [exact Henc|exact Hk].
Defined.

Lemma encode_last_pair_witness :
  exists cs' ls' c l',
    encode toy_tokenizer 1 toy_random 90 long_line
      = Some (inr (Some (cs' ++ [c]), Some (ls' ++ [l' ++ [1]]), 86)).
Proof.
  assert (Henc : exists r, encode toy_tokenizer 1 toy_random 90 long_line
                           = Some (inr (Some (fst r), Some (snd r), 86)))
    by (eexists (_, _); vm_compute; reflexivity).
  destruct Henc as ([cs ls] & Henc). cbn [fst snd] in Henc.
  destruct (encode_last_pair toy_tokenizer 1 toy_random 90 long_line
              cs ls 86 Henc) as (cs' & ls' & c & l & l' & -> & -> & _ & _ & ->).
  exists cs', ls', c, l'. exact Henc.
Defined.

Lemma encode_pair_count_witness :
  exists cs ls n,
    encode toy_tokenizer 1 toy_random 90 long_line
      = Some (inr (Some cs, Some ls, n)) /\
    31 * (len cs - 1) < 83 < 255 * len cs + 12.
Proof.
  do 3 eexists. split; [vm_compute; reflexivity|].
  apply (encode_pair_count toy_tokenizer 1 toy_random 90 long_line
           _ _ _ eq_refl).
Defined.

Lemma encode_pair_lengths_witness :
  exists cs ls n c l,
    encode toy_tokenizer 1 toy_random 90 long_line
      = Some (inr (Some cs, Some ls, n)) /\
    In (c, l) (combine cs ls) /\ 7 <= len l.
Proof.
  do 5 eexists. split; [vm_compute; reflexivity|].
  split; [left; reflexivity|].
  eapply (encode_pair_lengths toy_tokenizer 1 toy_random 90 long_line
            _ _ _ eq_refl).
  left; reflexivity.
Defined.

(** X6: in [encode] the table is consulted only for pieces of fewer than
    318 items: the branch for lengths 384 to 511 and the fall-through
    past it are never reached, and what the table gives does not depend
    on the tentative split. *)
Theorem override_reach r piece :
  len piece <= draw_tmp r + 254 ->
  len (from piece (draw_tmp r - 1)) < 63 ->
  len piece < 318 /\
  forall keep keep', override piece keep = override piece keep'.
Proof.
  intros Hp Hl. pose proof (draw_tmp_cases r) as Hcases.
  pose proof (len_nonneg piece).
  rewrite len_from, bound_nonneg in Hl by lia.
  assert (Hlt : len piece < 318) by lia.
  split; [exact Hlt|]. intros keep keep'. unfold override.
  split_cases; try reflexivity. lia.
Qed.

Lemma override_reach_witness :
  len (repeat 5 300) < 318 /\
  override (repeat 5 300) ([], []) = override (repeat 5 300) ([1], [2]).
Proof.
  destruct (override_reach 7 (repeat 5 300)) as [Hlt Hkeep].
  - vm_compute. discriminate.
  - vm_compute. reflexivity.
  - split; [exact Hlt|apply Hkeep].
Defined.

(** ** Stripping *)

Lemma lstrip_head s :
  lstrip s = EmptyString \/
  exists c t, lstrip s = String c t /\ isspace c = false.
Proof.
  induction s as [|c s IH]; [left; reflexivity|]. cbn [lstrip].
  destruct (isspace c) eqn:Hc; [exact IH|].
  right. exists c, s. auto.
Qed.

Lemma lstrip_fixed c t : isspace c = false -> lstrip (String c t) = String c t.
Proof. intros Hc. cbn [lstrip]. rewrite Hc. reflexivity. Qed.

Lemma rstrip_head c t :
  isspace c = false -> exists t', rstrip (String c t) = String c t'.
Proof.
  intros Hc. cbn [rstrip]. destruct (rstrip t); [rewrite Hc|]; eauto.
Qed.

Lemma rstrip_idem s : rstrip (rstrip s) = rstrip s.
Proof.
  induction s as [|c s IH]; [reflexivity|]. cbn [rstrip].
  destruct (rstrip s) as [|c' t] eqn:Hr.
  - destruct (isspace c) eqn:Hc; [reflexivity|].
    cbn [rstrip]. rewrite Hc. reflexivity.
  - cbn [rstrip] in *. rewrite IH. reflexivity.
Qed.

Lemma strip_idem s : strip (strip s) = strip s.
Proof.
  unfold strip. destruct (lstrip_head s) as [->|(c & t & -> & Hc)];
    [reflexivity|].
  destruct (rstrip_head c t Hc) as (t' & Ht). rewrite Ht.
  rewrite (lstrip_fixed c t' Hc), <- Ht. apply rstrip_idem.
Qed.

Lemma length_lstrip s : (String.length (lstrip s) <= String.length s)%nat.
Proof.
  induction s as [|c s IH]; [reflexivity|]. cbn [lstrip].
  destruct (isspace c); cbn [String.length]; lia.
Qed.

Lemma length_rstrip s : (String.length (rstrip s) <= String.length s)%nat.
Proof.
  induction s as [|c s IH]; [reflexivity|]. cbn [rstrip].
  destruct (rstrip s); [destruct (isspace c)|]; cbn [String.length] in *; lia.
Qed.

Lemma length_strip s : (String.length (strip s) <= String.length s)%nat.
Proof.
  unfold strip. pose proof (length_rstrip (lstrip s)).
  pose proof (length_lstrip s). lia.
Qed.

(** X8: for a line of at most 5,000,000 characters, [encode] returns the
    same lists, or the same error, for the line and for the line
    stripped of the blanks around it; only the character count it
    returns with them is that of the line as given. *)
Theorem encode_strip tokenizer_encode eod_id random fuel line :
  Z.of_nat (String.length line) <= 5000000 ->
  lists_of (encode tokenizer_encode eod_id random fuel (strip line))
  = lists_of (encode tokenizer_encode eod_id random fuel line).
Proof.
  intros Hline. pose proof (length_strip line) as Hs.
  unfold encode. rewrite strip_idem.
  destruct (Z.gtb_spec (Z.of_nat (String.length (strip line))) 5000000);
    [lia|].
  destruct (Z.gtb_spec (Z.of_nat (String.length line)) 5000000); [lia|].
  destruct (len _ <? 12); [reflexivity|].
  destruct (while_loop _ _ _ _) as [[e|st]|]; reflexivity.
Qed.

Lemma encode_strip_witness :
  lists_of (encode toy_tokenizer 1 toy_random 90 (strip long_line))
  = lists_of (encode toy_tokenizer 1 toy_random 90 long_line).
Proof.
  apply encode_strip. vm_compute. discriminate.
Defined.

(** * Further properties of the reduction loop *)

Lemma main_body_total st doc :
  total_bytes_processed (main_body st doc)
  = total_bytes_processed st + counted_bytes doc.
Proof.
  destruct doc as [[[pair_ids|] [label_ids|]] bytes_processed]; cbn; lia.
Qed.

Lemma main_loop_total encoded_docs st :
  total_bytes_processed (main_loop encoded_docs st)
  = total_bytes_processed st + zsum (map counted_bytes encoded_docs).
Proof.
  unfold main_loop. revert st.
  induction encoded_docs as [|doc docs IH]; intros st; cbn [fold_left map].
  - cbn. lia.
  - rewrite IH, main_body_total. unfold zsum. cbn [fold_right]. lia.
Qed.

Lemma zsum_permutation l l' : Permutation l l' -> zsum l = zsum l'.
Proof.
  unfold zsum. induction 1; cbn [fold_right]; lia.
Qed.

(** What the two builders have received when the loop, started on
    fresh builders, is left. *)
Lemma main_loop_received encoded_docs :
  let calls := add_item_calls (main_loop encoded_docs (MainState 0 [])) in
  calls = flat_map pair_calls (flat_map pairs_of encoded_docs) /\
  received builder_context calls = map fst (flat_map pairs_of encoded_docs) /\
  received builder_target calls = map snd (flat_map pairs_of encoded_docs).
Proof.
  cbv zeta. rewrite main_loop_calls. cbn [add_item_calls app].
  split; [reflexivity|]. apply received_pair_calls.
Qed.

(** X9: the order in which the pool yields the results does not matter
    to what the loop of [main] accumulates: for two orders of the same
    results the byte counts are equal, the builders receive the same
    number of calls, and the (context, label) pairs received are the
    same up to their order. *)
Theorem main_loop_unordered encoded_docs encoded_docs' :
  Permutation encoded_docs encoded_docs' ->
  let st := main_loop encoded_docs (MainState 0 []) in
  let st' := main_loop encoded_docs' (MainState 0 []) in
  total_bytes_processed st = total_bytes_processed st' /\
  List.length (add_item_calls st) = List.length (add_item_calls st') /\
  Permutation
    (combine (received builder_context (add_item_calls st))
             (received builder_target (add_item_calls st)))
    (combine (received builder_context (add_item_calls st'))
             (received builder_target (add_item_calls st'))).
Proof.
  intros Hperm st st'.
  destruct (main_loop_received encoded_docs) as (Hcalls & Hc & Hl).
  destruct (main_loop_received encoded_docs') as (Hcalls' & Hc' & Hl').
  fold st in Hcalls, Hc, Hl. fold st' in Hcalls', Hc', Hl'.
  split; [|split].
  - unfold st, st'. rewrite !main_loop_total. f_equal.
    apply zsum_permutation, Permutation_map, Hperm.
  - rewrite Hcalls, Hcalls'. apply Permutation_length.
    apply Permutation_flat_map, Permutation_flat_map, Hperm.
  - rewrite Hc, Hl, Hc', Hl', !combine_fst_snd.
    apply Permutation_flat_map, Hperm.
Qed.

Lemma main_loop_unordered_witness :
  total_bytes_processed
    (main_loop [(Some [[1]], Some [[2]], 5); (None, None, 0);
                (Some [[3]], Some [[4]], 7)] (MainState 0 []))
  = total_bytes_processed
      (main_loop [(Some [[3]], Some [[4]], 7); (Some [[1]], Some [[2]], 5);
                  (None, None, 0)] (MainState 0 [])).
Proof.
  apply main_loop_unordered.
  apply Permutation_sym, (Permutation_cons_app [_; _] []), Permutation_refl.
Defined.

Lemma Forall2_In_r {A B} (R : A -> B -> Prop) l l' y :
  Forall2 R l l' -> In y l' -> exists x, In x l /\ R x y.
Proof.
  induction 1 as [|x y' l l' HR _ IH]; intros Hin; [contradiction|].
  destruct Hin as [<-|Hin].
  - exists x. split; [left; reflexivity|exact HR].
  - destruct (IH Hin) as (x' & Hx & HR'). exists x'. split; [right|]; auto.
Qed.

Lemma encode_counted_bytes tokenizer_encode eod_id random fuel line doc :
  encode tokenizer_encode eod_id random fuel line = Some (inr doc) ->
  counted_bytes doc = accepted_bytes tokenizer_encode line.
Proof.
  unfold encode, accepted_bytes, tokens. intros Henc.
  destruct (Z.of_nat (String.length line) >? 5000000);
    [injection Henc as <-; reflexivity|].
  destruct (len _ <? 12); [injection Henc as <-; reflexivity|].
  destruct (while_loop _ _ _ _) as [[e|st]|]; try discriminate.
  injection Henc as <-. reflexivity.
Qed.

Lemma encode_pairs_of_in_range tokenizer_encode eod_id random fuel line doc
      c l :
  encode tokenizer_encode eod_id random fuel line = Some (inr doc) ->
  In (c, l) (pairs_of doc) ->
  4 < len c < 256 /\ 4 < len l < 256.
Proof.
  intros Henc Hin.
  destruct doc as [[[cs|] [ls|]] n]; cbn in Hin; try contradiction.
  apply encode_inv in Henc.
  destruct Henc as (_ & st & ((Hlen & Hall) & _) & -> & -> & _).
  destruct (In_combine_nth _ _ _ _ Hlen Hin) as (k & Hk & <- & <-).
  destruct (Hall k Hk) as (_ & Hc & Hl & _).
  rewrite <- !in_range_spec. auto.
Qed.

(** X10: when the results are what [encode] returned for the lines,
    each line with draws of its own, and reach the loop of [main] in any
    order, the loop counts the characters of exactly the lines that pass
    both rejection checks, and every tensor it hands to a builder has
    more than 4 and fewer than 256 items. *)
Theorem main_on_encoded tokenizer_encode eod_id lines results encoded_docs :
  Forall2 (fun line doc =>
             exists random fuel,
               encode tokenizer_encode eod_id random fuel line
               = Some (inr doc))
          lines results ->
  Permutation results encoded_docs ->
  let st := main_loop encoded_docs (MainState 0 []) in
  total_bytes_processed st
    = zsum (map (accepted_bytes tokenizer_encode) lines) /\
  (forall b x, In (b, IntTensor x) (add_item_calls st) -> 4 < len x < 256).
Proof.
  intros Hres Hperm st. split.
  - unfold st. rewrite main_loop_total. cbn [total_bytes_processed].
    rewrite <- (zsum_permutation _ _ (Permutation_map counted_bytes Hperm)).
    rewrite Z.add_0_l. clear Hperm.
    induction Hres as [|line doc lines results (random & fuel & Henc) _ IH];
      [reflexivity|].
    cbn [map]. unfold zsum in *. cbn [fold_right].
    rewrite IH, (encode_counted_bytes _ _ _ _ _ _ Henc). reflexivity.
  - intros b x Hin.
    destruct (main_loop_received encoded_docs) as (Hcalls & _).
    fold st in Hcalls. rewrite Hcalls in Hin.
    apply in_flat_map in Hin. destruct Hin as ([c l] & Hpair & Hcall).
    apply in_flat_map in Hpair. destruct Hpair as (doc & Hdoc & Hpair).
    apply (Permutation_in _ (Permutation_sym Hperm)) in Hdoc.
    destruct (Forall2_In_r _ _ _ _ Hres Hdoc)
      as (line & _ & random & fuel & Henc).
    destruct (encode_pairs_of_in_range _ _ _ _ _ _ _ _ Henc Hpair) as [Hc Hl].
    cbn in Hcall. destruct Hcall as [Heq|[Heq|[]]];
      injection Heq as _ <-; assumption.
Qed.

Lemma main_on_encoded_witness :
  total_bytes_processed
    (main_loop [(None, None, 0);
                (Some [upto (tokens toy_tokenizer toy_line ++ [1]) 15],
                 Some [from (tokens toy_tokenizer toy_line ++ [1]) 15], 42)]
               (MainState 0 []))
  = zsum (map (accepted_bytes toy_tokenizer) [toy_line; short_line]).
Proof.
  apply (main_on_encoded toy_tokenizer 1 [toy_line; short_line]
           [(Some [upto (tokens toy_tokenizer toy_line ++ [1]) 15],
             Some [from (tokens toy_tokenizer toy_line ++ [1]) 15], 42);
            (None, None, 0)]).
  - constructor; [exists toy_random, 40%nat; vm_compute; reflexivity|].
    constructor; [exists toy_random, 0%nat; vm_compute; reflexivity|].
    constructor.
  - apply perm_swap.
Defined.

(** * Properties of the length histogram *)

Lemma key_eqb_spec a b : key_eqb a b = true <-> a = b.
Proof.
  destruct a as [a1 a2], b as [b1 b2]. unfold key_eqb. cbn [fst snd].
  rewrite andb_true_iff, !Z.eqb_eq. split.
  - intros [-> ->]. reflexivity.
  - intros H. injection H as -> ->. auto.
Qed.

Lemma key_eqb_refl a : key_eqb a a = true.
Proof. apply key_eqb_spec. reflexivity. Qed.

Lemma key_eqb_neq a b : a <> b -> key_eqb a b = false.
Proof.
  intros Hne. destruct (key_eqb a b) eqn:H; [|reflexivity].
  apply key_eqb_spec in H. contradiction.
Qed.

Lemma dict_get_In d key : dict_get d key <> None <-> In key (map fst d).
Proof.
  induction d as [|[k v] d IH]; cbn [dict_get map In fst].
  - tauto.
  - destruct (key_eqb k key) eqn:Hk.
    + apply key_eqb_spec in Hk. split; [auto|discriminate].
    + rewrite IH. split; [auto|]. intros [Heq|Hin]; [|exact Hin].
      apply key_eqb_spec in Heq. congruence.
Qed.

(** Reading after writing: the key written holds the value written, and
    every other key holds what it held. *)
Lemma dict_get_set d key v key' :
  dict_get (dict_set d key v) key'
  = if key_eqb key key' then Some v else dict_get d key'.
Proof.
  induction d as [|[k v'] d IH]; cbn [dict_set dict_get].
  - destruct (key_eqb key key'); reflexivity.
  - destruct (key_eqb k key) eqn:Hk; cbn [dict_get].
    + apply key_eqb_spec in Hk. subst k.
      destruct (key_eqb key key'); reflexivity.
    + rewrite IH. destruct (key_eqb k key') eqn:Hk'; [|reflexivity].
      destruct (key_eqb key key') eqn:Hkk; [|reflexivity].
      apply key_eqb_spec in Hk', Hkk. subst.
      rewrite key_eqb_refl in Hk. discriminate.
Qed.

(** Writing to a key that is there keeps the keys and their order. *)
Lemma dict_set_keys d key v :
  dict_get d key <> None -> map fst (dict_set d key v) = map fst d.
Proof.
  induction d as [|[k v'] d IH]; cbn [dict_get dict_set]; [congruence|].
  destruct (key_eqb k key); cbn [map fst]; [reflexivity|].
  intros Hget. rewrite IH by exact Hget. reflexivity.
Qed.

Lemma hash_init_keys i j :
  In (i, j) (map fst hash_init) <-> 0 <= i <= 5 /\ 0 <= j <= 5.
Proof.
  let keys := eval vm_compute in (map fst hash_init) in
  change (map fst hash_init) with keys.
  cbn [In]. split.
  - intros H. repeat (destruct H as [H|H]; [injection H; intros; lia|]).
    contradiction.
  - intros [Hi Hj].
    assert (Hi' : i = 0 \/ i = 1 \/ i = 2 \/ i = 3 \/ i = 4 \/ i = 5) by lia.
    assert (Hj' : j = 0 \/ j = 1 \/ j = 2 \/ j = 3 \/ j = 4 \/ j = 5) by lia.
    destruct Hi' as [->|[->|[->|[->|[->| ->]]]]];
      destruct Hj' as [->|[->|[->|[->|[->| ->]]]]];
      repeat (first [left; reflexivity | right]).
Qed.

(** The flag of a length: -1 from 256 on, 0 below 4, and 1 to 5 in
    between. *)
Lemma first_below_flag n :
  let flag := first_below [4; 16; 32; 64; 128; 256] n 0 (-1) in
  (256 <= n /\ flag = -1) \/
  (n < 4 /\ flag = 0) \/
  (4 <= n < 256 /\ 1 <= flag <= 5).
Proof.
  cbv zeta. unfold first_below. split_cases; lia.
Qed.

Lemma check_raises x y hash :
  map fst hash = map fst hash_init ->
  (exists e, check x y hash = inl e) <-> 256 <= len x \/ 256 <= len y.
Proof.
  intros Hkeys. unfold check.
  pose proof (first_below_flag (len x)) as Hx.
  pose proof (first_below_flag (len y)) as Hy. cbv zeta in Hx, Hy.
  set (flag_1 := first_below _ (len x) 0 (-1)) in *.
  set (flag_2 := first_below _ (len y) 0 (-1)) in *.
  pose proof (dict_get_In hash (flag_1, flag_2)) as Hin.
  rewrite Hkeys, hash_init_keys in Hin.
  destruct (dict_get hash (flag_1, flag_2)) as [v|].
  - split; [intros [e He]; discriminate|].
    assert (0 <= flag_1 <= 5 /\ 0 <= flag_2 <= 5)
      by (apply Hin; discriminate).
    lia.
  - split; [intros _|intros _; eexists; reflexivity].
    assert (~ (0 <= flag_1 <= 5 /\ 0 <= flag_2 <= 5))
      by (intros H; apply Hin in H; congruence).
    lia.
Qed.

(** A successful [check] keeps the keys, moves one counter and leaves
    the others. *)
Lemma check_updates x y hash hash' :
  check x y hash = inr hash' ->
  let key := (first_below [4; 16; 32; 64; 128; 256] (len x) 0 (-1),
              first_below [4; 16; 32; 64; 128; 256] (len y) 0 (-1)) in
  map fst hash' = map fst hash /\
  (exists v, dict_get hash key = Some v /\
             dict_get hash' key = Some (add_one v)) /\
  (forall key', key' <> key -> dict_get hash' key' = dict_get hash key').
Proof.
  unfold check. cbv zeta.
  set (key := (first_below _ (len x) 0 (-1), first_below _ (len y) 0 (-1))).
  destruct (dict_get hash key) as [v|] eqn:Hget; [|discriminate].
  intros Hcheck. injection Hcheck as <-. split; [|split].
  - apply dict_set_keys. congruence.
  - exists v. split; [reflexivity|].
    rewrite dict_get_set, key_eqb_refl. reflexivity.
  - intros key' Hne. rewrite dict_get_set, key_eqb_neq; [reflexivity|].
    congruence.
Qed.

Lemma hash_init_zero i j :
  0 <= i <= 5 -> 0 <= j <= 5 -> dict_get hash_init (i, j) = Some 0.
Proof.
  intros Hi Hj.
  assert (Hi' : i = 0 \/ i = 1 \/ i = 2 \/ i = 3 \/ i = 4 \/ i = 5) by lia.
  assert (Hj' : j = 0 \/ j = 1 \/ j = 2 \/ j = 3 \/ j = 4 \/ j = 5) by lia.
  destruct Hi' as [->|[->|[->|[->|[->| ->]]]]];
    destruct Hj' as [->|[->|[->|[->|[->| ->]]]]]; reflexivity.
Qed.

Lemma dict_set_sum d key v v' :
  dict_get d key = Some v ->
  zsum (map snd (dict_set d key v')) = zsum (map snd d) - v + v'.
Proof.
  unfold zsum.
  induction d as [|[k w] d IH]; cbn [dict_get dict_set]; [discriminate|].
  destruct (key_eqb k key); cbn [map snd fold_right].
  - intros H. injection H as ->. lia.
  - intros H. rewrite IH by exact H. lia.
Qed.

Lemma dict_set_nonneg d key v' :
  Forall (fun e => 0 <= snd e) d -> 0 <= v' ->
  Forall (fun e => 0 <= snd e) (dict_set d key v').
Proof.
  intros Hall Hv. induction Hall as [|[k w] d Hw Hd IH]; cbn [dict_set].
  - constructor; [exact Hv|constructor].
  - destruct (key_eqb k key); constructor; cbn [snd] in *; auto.
Qed.

Lemma dict_get_le_sum d key v :
  Forall (fun e => 0 <= snd e) d -> dict_get d key = Some v ->
  0 <= v <= zsum (map snd d).
Proof.
  unfold zsum. intros Hall.
  induction Hall as [|[k w] d Hw Hall IH]; cbn [dict_get]; [discriminate|].
  cbn [map snd fold_right] in *.
  assert (0 <= fold_right Z.add 0 (map snd d)).
  { clear IH. induction Hall as [|e d' He _ IH']; cbn; lia. }
  destruct (key_eqb k key).
  - intros H'. injection H' as ->. lia.
  - intros H'. specialize (IH H'). lia.
Qed.

Lemma hash_ok_init : hash_ok hash_init 0.
Proof.
  constructor; [reflexivity| |reflexivity|].
  - let h := eval vm_compute in hash_init in change hash_init with h.
    repeat constructor; cbn; lia.
  - intros i j _. apply hash_init_zero.
Qed.

Lemma check_eq x y hash :
  check x y hash
  = match dict_get hash
            (first_below [4; 16; 32; 64; 128; 256] (len x) 0 (-1),
             first_below [4; 16; 32; 64; 128; 256] (len y) 0 (-1)) with
    | Some v =>
      inr (dict_set hash
             (first_below [4; 16; 32; 64; 128; 256] (len x) 0 (-1),
              first_below [4; 16; 32; 64; 128; 256] (len y) 0 (-1))
             (add_one v))
    | None =>
      inl (KeyError (first_below [4; 16; 32; 64; 128; 256] (len x) 0 (-1),
                     first_below [4; 16; 32; 64; 128; 256] (len y) 0 (-1)))
    end.
Proof. reflexivity. Qed.

Lemma check_step x y hash count :
  hash_ok hash count -> count < 2 ^ 53 ->
  4 < len x < 256 -> 4 < len y < 256 ->
  exists hash', check x y hash = inr hash' /\ hash_ok hash' (count + 1).
Proof.
  intros [Hkeys Hnn Hsum Hzero] Hcount Hx Hy.
  destruct (check x y hash) as [e|hash'] eqn:Hcheck.
  - assert (Hraise : 256 <= len x \/ 256 <= len y)
      by (apply (check_raises x y hash Hkeys); eauto).
    lia.
  - exists hash'. split; [reflexivity|].
    pose proof (check_updates x y hash hash' Hcheck) as Hup.
    cbv zeta in Hup. destruct Hup as (Hk & (v & Hv & Hv') & Hother).
    pose proof (first_below_flag (len x)) as Hfx.
    pose proof (first_below_flag (len y)) as Hfy. cbv zeta in Hfx, Hfy.
    pose proof (dict_get_le_sum _ _ _ Hnn Hv) as Hle.
    assert (Hadd : add_one v = v + 1)
      by (unfold add_one; destruct (Z.ltb_spec v (2 ^ 53)); lia).
    rewrite check_eq, Hv in Hcheck. injection Hcheck as <-.
    constructor.
    + congruence.
    + apply dict_set_nonneg; [exact Hnn|lia].
    + rewrite (dict_set_sum _ _ v _ Hv). lia.
    + intros i j Hij Hi Hj. rewrite dict_get_set, key_eqb_neq.
      * apply Hzero; assumption.
      * intros Heq. pose proof (f_equal fst Heq) as Hi'.
        pose proof (f_equal snd Heq) as Hj'. cbn [fst snd] in Hi', Hj'.
        change (first_below [4; 16; 32; 64; 128; 256] (len x) 0 (-1) = i)
          in Hi'.
        change (first_below [4; 16; 32; 64; 128; 256] (len y) 0 (-1) = j)
          in Hj'.
        lia.
Qed.

Lemma check_all_run pairs :
  forall hash count,
  hash_ok hash count ->
  count + Z.of_nat (List.length pairs) <= 2 ^ 53 ->
  Forall (fun p => 4 < len (fst p) < 256 /\ 4 < len (snd p) < 256) pairs ->
  exists hash', check_all pairs hash = inr hash' /\
                hash_ok hash' (count + Z.of_nat (List.length pairs)).
Proof.
  induction pairs as [|[x y] pairs IH]; intros hash count Hok Hcount Hall.
  - exists hash. split; [reflexivity|]. cbn. rewrite Z.add_0_r. exact Hok.
  - inversion Hall as [|p ps [Hx Hy] Hall']; subst. cbn [fst snd] in *.
    cbn [List.length] in Hcount.
    destruct (check_step x y hash count Hok) as (hash1 & Hcheck & Hok1);
      [lia|exact Hx|exact Hy|].
    destruct (IH hash1 (count + 1) Hok1) as (hash' & Hrun & Hok');
      [lia|exact Hall'|].
    exists hash'. cbn [check_all]. rewrite Hcheck.
    split; [exact Hrun|].
    replace (count + Z.of_nat (List.length ((x, y) :: pairs)))
      with (count + 1 + Z.of_nat (List.length pairs))
      by (cbn [List.length]; lia).
    exact Hok'.
Qed.

(** X11: on the dict of lines 45-48, or any dict with its keys, [check]
    raises [KeyError] exactly when one of its two arguments has 256
    items or more: the flag of such a length stays -1 and no key holds
    -1. *)
Theorem check_key_error x y hash :
  map fst hash = map fst hash_init ->
  (exists e, check x y hash = inl e) <-> 256 <= len x \/ 256 <= len y.
Proof. apply check_raises. Qed.

Lemma check_key_error_witness :
  exists e, check [1; 2; 3] (repeat 0 256) hash_init = inl e.
Proof.
  apply (proj2 (check_key_error [1; 2; 3] (repeat 0 256) hash_init eq_refl)).
  right. vm_compute. discriminate.
Defined.



(** X13: [check] run from the initial dict over the pairs [encode]
    returns never raises [KeyError]; if the pairs are at most [2^53] the
    counters then sum to their number; and the counters with a flag 0,
    for lengths below 4, are all still [0.0]. *)
Theorem check_encoded tokenizer_encode eod_id random fuel line cs ls n :
  encode tokenizer_encode eod_id random fuel line
    = Some (inr (Some cs, Some ls, n)) ->
  Z.of_nat (List.length (combine cs ls)) <= 2 ^ 53 ->
  exists hash',
    check_all (combine cs ls) hash_init = inr hash' /\
    map fst hash' = map fst hash_init /\
    zsum (map snd hash') = Z.of_nat (List.length (combine cs ls)) /\
    (forall i j, i = 0 \/ j = 0 -> 0 <= i <= 5 -> 0 <= j <= 5 ->
                 dict_get hash' (i, j) = Some 0).
Proof.
  intros Henc Hcount.
  destruct (check_all_run (combine cs ls) hash_init 0 hash_ok_init)
    as (hash' & Hrun & [Hkeys _ Hsum Hzero]); [lia| |].
  - apply Forall_forall. intros [c l] Hin. cbn [fst snd].
    apply (encode_pairs_of_in_range tokenizer_encode eod_id random fuel line
             (Some cs, Some ls, n) c l Henc Hin).
  - exists hash'. rewrite Z.add_0_l in Hsum. auto.
Qed.

Lemma check_encoded_witness :
  exists cs ls hash',
    encode toy_tokenizer 1 toy_random 90 long_line
      = Some (inr (Some cs, Some ls, 86)) /\
    check_all (combine cs ls) hash_init = inr hash' /\
    zsum (map snd hash') = 2.
Proof.
  assert (Henc : exists r, encode toy_tokenizer 1 toy_random 90 long_line
                           = Some (inr (Some (fst r), Some (snd r), 86)))
    by (eexists (_, _); vm_compute; reflexivity).
  destruct Henc as ([cs ls] & Henc). cbn [fst snd] in Henc.
  pose proof Henc as Hcopy.
  vm_compute in Hcopy. injection Hcopy as Hcs Hls.
  destruct (check_encoded toy_tokenizer 1 toy_random 90 long_line cs ls 86 Henc)
    as (hash' & Hrun & _ & Hsum & _).
  - rewrite <- Hcs, <- Hls. vm_compute. discriminate.
  - exists cs, ls, hash'. split; [exact Henc|]. split; [exact Hrun|].
    rewrite Hsum, <- Hcs, <- Hls. reflexivity.
Defined.

(** * Overlap of successive pairs *)

(** X7: successive pairs overlap: when a pair is followed by another,
    every item it holds from position [tmp - 1] on, [tmp] being its own
    draw, is held again by the next pair, [tmp - 1] positions earlier. *)
Theorem encode_windows_overlap tokenizer_encode eod_id random fuel line
        cs ls n :
  encode tokenizer_encode eod_id random fuel line
    = Some (inr (Some cs, Some ls, n)) ->
  forall k p, (S k < List.length cs)%nat ->
    (Z.to_nat (draw_tmp (random k) - 1) <= p)%nat ->
    (p < List.length (nth k cs [] ++ nth k ls []))%nat ->
    nth_error (nth (S k) cs [] ++ nth (S k) ls [])
              (p - Z.to_nat (draw_tmp (random k) - 1))
    = nth_error (nth k cs [] ++ nth k ls []) p.
Proof.
  intros Henc k p Hk Hp Hlen. apply encode_run in Henc.
  destruct Henc as (_ & st & _ & ((_ & Hall) & _) & -> & ->).
  destruct (Hall k) as (Hwk & _); [lia|].
  destruct (Hall (S k) Hk) as (Hwk' & _).
  rewrite Hwk in Hlen |- *. rewrite Hwk'.
  set (doc := tokens tokenizer_encode line ++ [eod_id]) in *.
  pose proof (offset_nonneg random k) as H0.
  pose proof (draw_tmp_ge (random k)) as Hge.
  pose proof (draw_tmp_ge (random (S k))) as Hge'.
  pose proof (len_window random doc k) as Hlk.
  pose proof (len_window random doc (S k)) as Hlk'.
  pose proof (offset_succ random k) as Hoff.
  assert (Hp' : Z.of_nat p < len (window random doc k))
    by (unfold Py.len; lia).
  assert (E1 : nth_error (window random doc k) p
               = nth_error doc (Z.to_nat (offset random k) + p)).
  { rewrite <- (nth_error_window random doc k
                  (Z.to_nat (offset random k) + p)) by lia.
    f_equal. lia. }
  assert (E2 : nth_error (window random doc (S k))
                         (p - Z.to_nat (draw_tmp (random k) - 1))
               = nth_error doc (Z.to_nat (offset random k) + p)).
  { rewrite <- (nth_error_window random doc (S k)
                  (Z.to_nat (offset random k) + p)) by lia.
    f_equal. lia. }
  rewrite E1, E2. reflexivity.
Qed.

Lemma encode_windows_overlap_witness :
  exists cs ls,
    encode toy_tokenizer 1 toy_random 90 long_line
      = Some (inr (Some cs, Some ls, 86)) /\
    nth_error (nth 1 cs [] ++ nth 1 ls [])
              (70 - Z.to_nat (draw_tmp (toy_random 0) - 1))
    = nth_error (nth 0 cs [] ++ nth 0 ls []) 70.
Proof.
  do 2 eexists. split; [vm_compute; reflexivity|].
  apply (encode_windows_overlap toy_tokenizer 1 toy_random 90 long_line
           _ _ 86 eq_refl 0%nat 70%nat); vm_compute; lia.
Defined.

(** * The output files *)

Lemma append_assoc (a b c : string) : ((a ++ b) ++ c = a ++ b ++ c)%string.
Proof.
  induction a as [|x a IH]; [reflexivity|]. cbn. rewrite IH. reflexivity.
Qed.

Lemma append_cancel_l (a b c : string) :
  (a ++ b = a ++ c)%string -> b = c.
Proof.
  induction a as [|x a IH]; cbn; [auto|].
  intros H. injection H as H. auto.
Qed.

(** The directory part does not depend on what follows the prefix. *)
Lemma path_join_common a p :
  exists q, forall t,
    path_join a (p ++ String "_" t) = (q ++ String "_" t)%string.
Proof.
  destruct p as [|c p].
  - unfold path_join. cbn [append starts_with_sep].
    destruct (match a with EmptyString => true | _ => false end
              || ends_with_sep a).
    + exists a. reflexivity.
    + exists (a ++ "/")%string. intros t. rewrite append_assoc. reflexivity.
  - destruct (starts_with_sep (String c p)) eqn:Hs.
    + exists (String c p). intros t. unfold path_join.
      replace (starts_with_sep (String c p ++ String "_" t)) with true
        by (rewrite <- Hs; reflexivity).
      reflexivity.
    + unfold path_join.
      destruct (match a with EmptyString => true | _ => false end
                || ends_with_sep a).
      * exists (a ++ String c p)%string. intros t.
        replace (starts_with_sep (String c p ++ String "_" t)) with false
          by (rewrite <- Hs; reflexivity).
        rewrite append_assoc. reflexivity.
      * exists (a ++ "/" ++ String c p)%string. intros t.
        replace (starts_with_sep (String c p ++ String "_" t)) with false
          by (rewrite <- Hs; reflexivity).
        rewrite !append_assoc. reflexivity.
Qed.

(** X14: whatever the output directory and the output prefix, the four
    paths [main] opens are pairwise different, so no builder writes over
    the file of another; and a prefix that starts with a separator makes
    [os.path.join] drop the output directory. *)
Theorem output_files_distinct output_path output_prefix :
  let files := output_files_of output_path output_prefix in
  NoDup [context_bin_file files; context_idx_file files;
         target_bin_file files; target_idx_file files] /\
  (starts_with_sep output_prefix = true ->
   context_bin_file files
   = (output_prefix ++ "_" ++ level ++ "_context.bin")%string).
Proof.
  cbv zeta. split.
  - unfold output_files_of.
    cbn [context_bin_file context_idx_file target_bin_file target_idx_file].
    destruct (path_join_common output_path output_prefix) as (q & Hq).
    change ("_" ++ level ++ "_context.bin")%string
      with (String "_" "document_context.bin").
    change ("_" ++ level ++ "_context.idx")%string
      with (String "_" "document_context.idx").
    change ("_" ++ level ++ "_target.bin")%string
      with (String "_" "document_target.bin").
    change ("_" ++ level ++ "_target.idx")%string
      with (String "_" "document_target.idx").
    rewrite !Hq.
    repeat constructor; cbn [In]; intros H;
      repeat (destruct H as [H|H];
              [apply append_cancel_l in H; discriminate H|]);
      exact H.
  - intros Hs. unfold output_files_of. cbn [context_bin_file].
    unfold path_join.
    destruct output_prefix as [|c p]; [discriminate|].
    replace (starts_with_sep
               (String c p ++ "_" ++ level ++ "_context.bin"))
      with true by (rewrite <- Hs; reflexivity).
    reflexivity.
Qed.

Lemma output_files_distinct_witness :
  context_bin_file (output_files_of "/data/out" "/tmp/x")
  = "/tmp/x_document_context.bin"%string.
Proof.
  apply (proj2 (output_files_distinct "/data/out" "/tmp/x")). reflexivity.
Defined.
